(** * jp-learning-site: the study log, the review sets and the quiz of [app.js]

    A shallow embedding of the [jpApp] object of [src/app.js] and the
    properties of its ranking, date-window selection, quiz resolution,
    answer-choice construction and quiz hand-off.

    Conventions of the embedding.
    - JavaScript numbers that the code computes with are integers ([Z]) or
      [NaN]; a timestamp [ts] is an integer number of milliseconds.
    - A JavaScript object used as a dictionary is the list of its own
      properties in creation order, together with what a lookup finds on
      the prototype chain.
    - [Date.now()] and [Math.random()] are inputs of the functions that
      read them.
    - [localStorage] is a record of the two keys the study log and the quiz
      use (the key of the sound switch is kept with the switch); a stored
      string is kept as what [JSON.parse] makes of it. *)

From Stdlib Require Import ZArith List String Ascii Bool Lia Arith.
From Stdlib Require Import Permutation Sorted.
Import ListNotations.

Set Implicit Arguments.
Open Scope Z_scope.

(** ** JavaScript numbers and property lookup *)

(** A number is an integer or [NaN]. *)
Inductive num : Type :=
| Num (z : Z)
| NaN.

(** [Math.max(a, b)]: [NaN] as soon as one argument is [NaN]. *)
Definition Math_max (a b : num) : num :=
  match a, b with
  | Num x, Num y => Num (Z.max x y)
  | _, _ => NaN
  end.

(** [a - b]. *)
Definition num_sub (a b : num) : num :=
  match a, b with
  | Num x, Num y => Num (x - y)
  | _, _ => NaN
  end.

(** Truthiness of a number: [0] and [NaN] are falsy. *)
Definition truthy (a : num) : bool :=
  match a with
  | Num z => negb (z =? 0)
  | NaN => false
  end.

(** Every object literal inherits these members from [Object.prototype];
    a lookup of one of these names on [{}] finds a function (or, for
    [__proto__], the prototype object), never [undefined]. *)
Definition object_prototype_members : list string :=
  [ "constructor"; "__defineGetter__"; "__defineSetter__"; "hasOwnProperty";
    "__lookupGetter__"; "__lookupSetter__"; "isPrototypeOf";
    "propertyIsEnumerable"; "toString"; "valueOf"; "__proto__";
    "toLocaleString" ]%string.

Definition inherited (k : string) : bool :=
  existsb (String.eqb k) object_prototype_members.

(** Own-property lookup in a list of properties. *)
Fixpoint assoc (A : Type) (k : string) (l : list (string * A)) : option A :=
  match l with
  | [] => None
  | (k', v) :: l' => if String.eqb k k' then Some v else assoc k l'
  end.

(** [o[k] = v]: an existing own property keeps its place, a new one is
    created last. *)
Fixpoint upsert (A : Type) (k : string) (v : A) (l : list (string * A))
  : list (string * A) :=
  match l with
  | [] => [(k, v)]
  | (k', v') :: l' =>
      if String.eqb k k' then (k, v) :: l' else (k', v') :: upsert k v l'
  end.

(** ** Study events *)

(** [{ itemId, itemType, outcome, ts }] as [logStudy] writes it. *)
Record StudyEvent : Type := mkEvent {
  itemId : string;
  itemType : string;
  outcome : string;
  ts : Z
}.

(** ** The ranker: [_rankEvents] *)

(** [const score = { wrong: 3, correct: 2, view: 1 }]. *)
Definition score : list (string * Z) :=
  [ ("wrong", 3); ("correct", 2); ("view", 1) ]%string.

(** [score[e.outcome] || 0].  An own property gives its number; a name
    inherited from [Object.prototype] gives a function or object, which is
    truthy, survives [|| 0] and becomes [NaN] inside [Math.max]; any other
    name gives [undefined], replaced by [0]. *)
Definition score_of (o : string) : num :=
  match assoc o score with
  | Some w => if truthy (Num w) then Num w else Num 0
  | None => if inherited o then NaN else Num 0
  end.

(** [{ itemId, best, lastTs }]. *)
Record RankedItem : Type := mkRanked {
  r_itemId : string;
  best : num;
  lastTs : num
}.

(** The object [map] of [_rankEvents]: its own properties in creation
    order, and the record that replaced its prototype, if an assignment to
    [map["__proto__"]] did so. *)
Record jsmap : Type := mkMap {
  own : list (string * RankedItem);
  proto : option RankedItem
}.

Definition empty_map : jsmap := mkMap [] None.

(** [(prev.best, prev.lastTs)] for
    [prev = map[id] || { itemId: id, best: 0, lastTs: 0 }].
    An own property is the record stored earlier.  Otherwise the lookup
    goes up the prototype chain: a truthy value found there that is not a
    record has no [best] and no [lastTs] ([undefined], which [Math.max]
    turns into [NaN]); a falsy value or no value gives the default. *)
Definition prev_of (m : jsmap) (id : string) : num * num :=
  match assoc id (own m) with
  | Some r => (best r, lastTs r)
  | None =>
      match proto m with
      | Some r =>
          if String.eqb id "__proto__" then (best r, lastTs r)
          else if String.eqb id "itemId" then (NaN, NaN)
          else if String.eqb id "best" then
            if truthy (best r) then (NaN, NaN) else (Num 0, Num 0)
          else if String.eqb id "lastTs" then
            if truthy (lastTs r) then (NaN, NaN) else (Num 0, Num 0)
          else if inherited id then (NaN, NaN)
          else (Num 0, Num 0)
      | None => if inherited id then (NaN, NaN) else (Num 0, Num 0)
      end
  end.

(** [map[id] = rec].  The name [__proto__] is an accessor of
    [Object.prototype]: assigning an object to it replaces the prototype
    and creates no own property. *)
Definition assign (m : jsmap) (id : string) (rec : RankedItem) : jsmap :=
  if String.eqb id "__proto__" then mkMap (own m) (Some rec)
  else mkMap (upsert id rec (own m)) (proto m).

(** The body of [events.forEach(e => ...)]. *)
Definition rank_step (m : jsmap) (e : StudyEvent) : jsmap :=
  let id := itemId e in
  let prev := prev_of m id in
  let s := score_of (outcome e) in
  assign m id
    (mkRanked id (Math_max (fst prev) s) (Math_max (snd prev) (Num (ts e)))).

Definition accumulate (events : list StudyEvent) : jsmap :=
  fold_left rank_step events empty_map.

(** *** [Object.values]: own properties in the order of the language *)

Definition is_digit (c : ascii) : bool :=
  let n := N_of_ascii c in ((48 <=? n) && (n <=? 57))%N.

Fixpoint digits_value (acc : N) (s : string) : option N :=
  match s with
  | EmptyString => Some acc
  | String c s' =>
      if is_digit c
      then digits_value (10 * acc + (N_of_ascii c - 48))%N s'
      else None
  end.

(** An array index is the canonical decimal name of an integer in
    [0, 2^32 - 2]. *)
Definition array_index (k : string) : option N :=
  match k with
  | EmptyString => None
  | String c rest =>
      if (Ascii.eqb c "0" && negb (String.eqb rest ""))%bool then None
      else
        match digits_value 0 k with
        | Some n =>
            if ((String.length k <=? 10)%nat && (n <? 4294967295)%N)%bool
            then Some n else None
        | None => None
        end
  end.

Fixpoint insert_index (A : Type) (n : N) (v : A) (l : list (N * A))
  : list (N * A) :=
  match l with
  | [] => [(n, v)]
  | (n', v') :: l' =>
      if (n <=? n')%N then (n, v) :: l else (n', v') :: insert_index n v l'
  end.

Fixpoint index_properties (A : Type) (l : list (string * A)) : list (N * A) :=
  match l with
  | [] => []
  | (k, v) :: l' =>
      match array_index k with
      | Some n => insert_index n v (index_properties l')
      | None => index_properties l'
      end
  end.

Fixpoint string_properties (A : Type) (l : list (string * A)) : list A :=
  match l with
  | [] => []
  | (k, v) :: l' =>
      match array_index k with
      | Some _ => string_properties l'
      | None => v :: string_properties l'
      end
  end.

(** [Object.values(o)]: the array-index properties in ascending numeric
    order, then the other properties in creation order. *)
Definition Object_values (A : Type) (l : list (string * A)) : list A :=
  map snd (index_properties l) ++ string_properties l.

(** *** [Array.prototype.sort] with a comparator *)

(** [(a, b) => b.best - a.best || a.lastTs - b.lastTs]. *)
Definition compareFn (a b : RankedItem) : num :=
  let d := num_sub (best b) (best a) in
  if truthy d then d else num_sub (lastTs a) (lastTs b).

(** The sort reads a comparator result [NaN] as [+0]. *)
Definition sort_compare (a b : RankedItem) : Z :=
  match compareFn a b with
  | Num z => z
  | NaN => 0
  end.

(** The sort is stable: an element stays in front of the later elements
    that compare equal to it.  With a consistent comparator every stable
    sort returns this list; with an inconsistent one (records holding
    [NaN]) the language leaves the order to the implementation, and the
    properties below are stated for [NaN]-free records. *)
Fixpoint insert_sorted (x : RankedItem) (l : list RankedItem)
  : list RankedItem :=
  match l with
  | [] => [x]
  | y :: l' =>
      if sort_compare x y <=? 0 then x :: l else y :: insert_sorted x l'
  end.

Definition Array_sort (l : list RankedItem) : list RankedItem :=
  fold_right insert_sorted [] l.

(** The sorted records, before [.map(r => r.itemId)]. *)
Definition rankedItems (events : list StudyEvent) : list RankedItem :=
  Array_sort (Object_values (own (accumulate events))).

(** [_rankEvents(events)]. *)
Definition _rankEvents (events : list StudyEvent) : list string :=
  map r_itemId (rankedItems events).

(** *** What the specification says the ranker computes *)

(** Severity weight: wrong=3, correct=2, view=1, unknown=0. *)
Definition weight (o : string) : Z :=
  if String.eqb o "wrong" then 3
  else if String.eqb o "correct" then 2
  else if String.eqb o "view" then 1
  else 0.

(** The events of one item. *)
Definition events_of (id : string) (events : list StudyEvent)
  : list StudyEvent :=
  filter (fun e => String.eqb (itemId e) id) events.

(** Whether some event is about the item [id]. *)
Definition seen (id : string) (events : list StudyEvent) : bool :=
  existsb (fun e => String.eqb (itemId e) id) events.

(** The largest weight and the largest timestamp of the events of [id],
    with the floor [0] the accumulator starts from. *)
Definition bestZ (id : string) (events : list StudyEvent) : Z :=
  fold_right Z.max 0 (map (fun e => weight (outcome e)) (events_of id events)).

Definition lastZ (id : string) (events : list StudyEvent) : Z :=
  fold_right Z.max 0 (map ts (events_of id events)).

(** The names of the own properties. *)
Definition keys (A : Type) (l : list (string * A)) : list string :=
  map fst l.

(** [m] is the maximum of the non-empty list [l]. *)
Definition is_max (m : Z) (l : list Z) : Prop :=
  In m l /\ Forall (fun x => x <= m) l.

(** [a] comes no later than [b]: larger [best] first, then smaller
    [lastTs]. *)
Definition before (a b : RankedItem) : Prop :=
  match best a, best b, lastTs a, lastTs b with
  | Num ba, Num bb, Num ta, Num tb => bb < ba \/ (ba = bb /\ ta <= tb)
  | _, _, _, _ => False
  end.

(** A record whose two numbers are integers. *)
Definition numeric (r : RankedItem) : Prop :=
  exists b t : Z, best r = Num b /\ lastTs r = Num t.

(** Two records tie when the comparator cannot tell them apart. *)
Definition tie (a b : RankedItem) : Prop :=
  best a = best b /\ lastTs a = lastTs b.

(** No two different items of [events] have both the same largest weight
    and the same largest timestamp. *)
Definition no_ties (events : list StudyEvent) : Prop :=
  forall id1 id2 : string,
    In id1 (map itemId events) -> In id2 (map itemId events) ->
    bestZ id1 events = bestZ id2 events ->
    lastZ id1 events = lastZ id2 events ->
    id1 = id2.

(** The events the ranker is specified for: the item id and the outcome
    are not names of members inherited from [Object.prototype], and the
    timestamp is a number of milliseconds since the epoch. *)
Definition plain_event (e : StudyEvent) : Prop :=
  inherited (itemId e) = false /\ inherited (outcome e) = false /\ 0 <= ts e.

(** ** Calendar days in Asia/Seoul: [_kstYMD] and [_daysAgo] *)

(** A civil date of the Gregorian calendar. *)
Record date : Type := mkDate {
  year : Z;
  month : Z;
  day : Z
}.

Definition is_leap (y : Z) : bool :=
  (y mod 4 =? 0) && (negb (y mod 100 =? 0) || (y mod 400 =? 0)).

Definition days_in_month (y m : Z) : Z :=
  if m =? 2 then (if is_leap y then 29 else 28)
  else if (m =? 4) || (m =? 6) || (m =? 9) || (m =? 11) then 30
  else 31.

(** The day after [d]. *)
Definition next_day (d : date) : date :=
  if day d <? days_in_month (year d) (month d)
  then mkDate (year d) (month d) (day d + 1)
  else if month d <? 12 then mkDate (year d) (month d + 1) 1
  else mkDate (year d + 1) 1 1.

(** A month from 1 to 12 and a day of that month. *)
Definition valid_date (d : date) : Prop :=
  1 <= month d <= 12 /\ 1 <= day d <= days_in_month (year d) (month d).

(** Comparison of dates: by year, then month, then day. *)
Definition date_compare (a b : date) : comparison :=
  match year a ?= year b with
  | Eq =>
      match month a ?= month b with
      | Eq => day a ?= day b
      | c => c
      end
  | c => c
  end.

(** The civil date [n] days after 1970-01-01. *)
Definition civil_of_days (n : Z) : date :=
  Z.iter n next_day (mkDate 1970 1 1).

Definition MS_PER_DAY : Z := 24 * 60 * 60 * 1000.

(** Asia/Seoul is nine hours ahead of UTC, without daylight saving, since
    its last change of offset on 1988-10-08T17:00:00Z. *)
Definition KST_OFFSET : Z := 9 * 60 * 60 * 1000.
Definition KST_SINCE : Z := 592333200000.

(** The number of the Asia/Seoul calendar day that holds the instant [t],
    counted from 1970-01-01. *)
Definition kst_day (t : Z) : Z := (t + KST_OFFSET) / MS_PER_DAY.

Definition digit (n : Z) : ascii := ascii_of_N (48 + Z.to_N n).

(** Decimal digits of [n], most significant first, in front of [acc]. *)
Fixpoint decimal_aux (fuel : nat) (n : Z) (acc : string) : string :=
  match fuel with
  | O => acc
  | S fuel' =>
      let acc' := String (digit (n mod 10)) acc in
      if n <? 10 then acc' else decimal_aux fuel' (n / 10) acc'
  end.

(** The decimal name of a natural number, as [String(n)] prints it. *)
Definition decimal (n : Z) : string :=
  decimal_aux (S (Z.to_nat (Z.log2 n))) n "".

(** Two-digit field of the formatter. *)
Definition two_digits (n : Z) : string :=
  String (digit (n / 10)) (String (digit (n mod 10)) "").

(** [new Intl.DateTimeFormat('en-CA', { year: 'numeric', month: '2-digit',
    day: '2-digit' })] prints a date as [y-MM-dd]. *)
Definition format_en_CA (d : date) : string :=
  (decimal (year d) ++ "-" ++ two_digits (month d) ++ "-"
   ++ two_digits (day d))%string.

(** [_kstYMD(date)], on the time value of [date].  The platform formatter
    is modelled for instants from [KST_SINCE] on. *)
Definition _kstYMD (t : Z) : string :=
  format_en_CA (civil_of_days (kst_day t)).

(** [_daysAgo(n)], on the time value of the result; [now] is what
    [Date.now()] returns. *)
Definition _daysAgo (now : Z) (n : Z) : Z :=
  now - n * 24 * 60 * 60 * 1000.

(** The instants the formatter is modelled for, with a year of four
    digits. *)
Definition kst_ok (t : Z) : Prop :=
  KST_SINCE <= t /\ year (civil_of_days (kst_day t)) <= 9999.

(** The instant [t] falls on the Asia/Seoul date [y]-[m]-[d]. *)
Definition on_kst_date (t y m d : Z) : Prop :=
  KST_SINCE <= t /\ civil_of_days (kst_day t) = mkDate y m d.

(** ** Results of operations that can throw or loop *)

Inductive exn : Type :=
| SyntaxError
| TypeError.

(** [Ok]: the operation returns; [Throw]: it throws; [Pending]: it was
    still running when the fuel of the model ran out. *)
Inductive result (A : Type) : Type :=
| Ok (a : A)
| Throw (e : exn)
| Pending.

Arguments Throw {A} e.
Arguments Pending {A}.

Definition bind (A B : Type) (r : result A) (k : A -> result B) : result B :=
  match r with
  | Ok a => k a
  | Throw e => Throw e
  | Pending => Pending
  end.

Notation "x <- r ;; k" := (bind r (fun x => k))
  (at level 61, r at next level, right associativity).

(** ** [localStorage] *)

(** A JSON value that is no array, told apart as far as the code does:
    [null]; a string; or a number, a boolean or an object, of which the
    code can only see whether its property [length] is truthy (a number
    and a boolean have none). *)
Inductive non_array : Type :=
| JNull
| JString (s : string)
| JOther (length_truthy : bool).

(** A string of the store, seen through [JSON.parse]: the empty string; a
    string that is no JSON text; the text of an array; the text of a value
    that is no array.  The elements of an array are taken to have the
    shape the application writes: study events in the log, strings in the
    pending list. *)
Inductive stored (A : Type) : Type :=
| Empty_text
| Malformed
| Json (v : A)
| Json_other (j : non_array).

Arguments Empty_text {A}.
Arguments Malformed {A}.
Arguments Json_other {A} j.

(** What [JSON.parse] returns: an array, or a value that is no array. *)
Inductive parsed (A : Type) : Type :=
| Array (v : A)
| NotArray (j : non_array).

Arguments NotArray {A} j.

(** The keys ['studyLog'] and ['quizItems']; [None] is a key that was never
    set ([getItem] returns [null]). *)
Record Storage : Type := mkStorage {
  studyLog : option (stored (list StudyEvent));
  quizItems : option (stored (list string))
}.

(** [x || d] on what [getItem] returns: [null] and the empty string are
    falsy. *)
Definition or_default (A : Type) (x : option (stored A)) (d : stored A)
  : stored A :=
  match x with
  | None => d
  | Some Empty_text => d
  | Some s => s
  end.

(** [JSON.parse(s)]: throws a [SyntaxError] on a string that is not a JSON
    text. *)
Definition JSON_parse (A : Type) (s : stored A) : result (parsed A) :=
  match s with
  | Json v => Ok (Array v)
  | Json_other j => Ok (NotArray j)
  | Empty_text => Throw SyntaxError
  | Malformed => Throw SyntaxError
  end.

(** [JSON.stringify(v)]. *)
Definition JSON_stringify (A : Type) (v : A) : stored A := Json v.

(** [const log = JSON.parse(localStorage.getItem('studyLog') || '[]')],
    with the first use of [log] in its three readers: each calls an array
    method on it ([log.push], [log.filter]) before anything else can be
    observed, and on a value that is no array the method is missing and
    the call throws a [TypeError]. *)
Definition read_log (st : Storage) : result (list StudyEvent) :=
  v <- JSON_parse (or_default (studyLog st) (Json [])) ;;
  match v with
  | Array log => Ok log
  | NotArray _ => Throw TypeError
  end.

(** [logStudy({ itemId, itemType, outcome })]; [now] is [Date.now()]. *)
Definition logStudy (st : Storage) (now : Z) (id type o : string)
  : result Storage :=
  log <- read_log st ;;
  let log' := log ++ [mkEvent id type o now] in
  Ok (mkStorage (Some (JSON_stringify log')) (quizItems st)).

(** ** Review sets *)

(** The default of the parameter [max]. *)
Definition default_max : nat := 30.

(** The events [getYesterdayReviewSet] keeps. *)
Definition yesterday_events (now : Z) (log : list StudyEvent)
  : list StudyEvent :=
  let target := _kstYMD (_daysAgo now 1) in
  filter (fun e => String.eqb (_kstYMD (ts e)) target) log.

(** [getYesterdayReviewSet(max)]. *)
Definition getYesterdayReviewSet (st : Storage) (now : Z) (max : nat)
  : result (list string) :=
  log <- read_log st ;;
  Ok (firstn max (_rankEvents (yesterday_events now log))).

(** The events [getLast7DaysReviewSet] keeps; [now7] and [now1] are the two
    readings of the clock, for [start] and for [end]. *)
Definition last7_events (now7 now1 : Z) (log : list StudyEvent)
  : list StudyEvent :=
  let start := _kstYMD (_daysAgo now7 7) in
  let end_ := _kstYMD (_daysAgo now1 1) in
  filter (fun e =>
            let d := _kstYMD (ts e) in
            String.leb start d && String.leb d end_) log.

(** [getLast7DaysReviewSet(max)]. *)
Definition getLast7DaysReviewSet (st : Storage) (now7 now1 : Z) (max : nat)
  : result (list string) :=
  log <- read_log st ;;
  Ok (firstn max (_rankEvents (last7_events now7 now1 log))).

(** A stored log and a clock reading used to exercise the review sets:
    events of 2025-01-10, 2025-01-11 and 2025-01-08, read on 2025-01-11
    (all Asia/Seoul). *)
Definition sample_log : list StudyEvent :=
  [ mkEvent "D1W1" "word" "wrong" 1736434800000;
    mkEvent "D1W2" "word" "view" 1736521200000;
    mkEvent "D2P" "pattern" "correct" 1736262000000 ].

Definition sample_storage : Storage := mkStorage (Some (Json sample_log)) None.

Definition sample_now : Z := 1736560000000.

(** The distinct item ids of a list of events. *)
Definition item_ids (events : list StudyEvent) : list string :=
  nodup string_dec (map itemId events).

(** A call of [getLast7DaysReviewSet] during which the Asia/Seoul date
    changes: the clock reads 2025-01-14 23:59:59.999 when [start] is
    computed and 2025-01-15 00:00:00.000 when [end] is; the log holds an
    event of noon of 2025-01-07 and one of noon of 2025-01-14. *)
Definition before_midnight : Z := 1736866799999.
Definition at_midnight : Z := 1736866800000.

Definition midnight_log : list StudyEvent :=
  [ mkEvent "D1W1" "word" "wrong" 1736218800000;
    mkEvent "D1W2" "word" "wrong" 1736823600000 ].

(** ** The catalog and quiz resolution: [generateQuizData] *)

(** [{ jp, ko }]. *)
Record Word : Type := mkWord {
  w_jp : string;
  w_ko : string
}.

(** [{ pattern, pattern_ko, words }]. *)
Record Day : Type := mkDay {
  pattern : string;
  pattern_ko : string;
  words : list Word
}.

(** [{ id, type, jp, ko }]. *)
Record QuizItem : Type := mkItem {
  q_id : string;
  q_type : string;
  q_jp : string;
  q_ko : string
}.

(** [`D${di + 1}W${wi + 1}`] and [`D${di + 1}P`]. *)
Definition word_id (di wi : nat) : string :=
  ("D" ++ decimal (Z.of_nat di + 1) ++ "W" ++ decimal (Z.of_nat wi + 1))%string.

Definition pattern_id (di : nat) : string :=
  ("D" ++ decimal (Z.of_nat di + 1) ++ "P")%string.

(** [l.includes(x)] on an array of strings. *)
Definition includes (l : list string) (x : string) : bool :=
  existsb (String.eqb x) l.

(** [day.words.forEach((w, wi) => ...)], from index [wi] on; [items] is the
    array the loop pushes to. *)
Fixpoint words_forEach (itemIds : list string) (di : nat) (ws : list Word)
  (wi : nat) (items : list QuizItem) : list QuizItem :=
  match ws with
  | [] => items
  | w :: ws' =>
      let id := word_id di wi in
      let items' :=
        if includes itemIds id
        then items ++ [mkItem id "word" (w_jp w) (w_ko w)]
        else items in
      words_forEach itemIds di ws' (S wi) items'
  end.

(** [plan.forEach((day, di) => ...)], from index [di] on. *)
Fixpoint plan_forEach (itemIds : list string) (plan : list Day) (di : nat)
  (items : list QuizItem) : list QuizItem :=
  match plan with
  | [] => items
  | d :: plan' =>
      let items1 := words_forEach itemIds di (words d) 0 items in
      let pid := pattern_id di in
      let items2 :=
        if includes itemIds pid
        then items1 ++ [mkItem pid "pattern" (pattern d) (pattern_ko d)]
        else items1 in
      plan_forEach itemIds plan' (S di) items2
  end.

(** [generateQuizData(itemIds, plan)]. *)
Definition generateQuizData (itemIds : list string) (plan : list Day)
  : list QuizItem :=
  plan_forEach itemIds plan 0 [].

(** The whole catalog as quiz items, in catalog order: day after day, the
    words of a day in order and then its pattern. *)
Fixpoint word_items (di : nat) (ws : list Word) (wi : nat) : list QuizItem :=
  match ws with
  | [] => []
  | w :: ws' =>
      mkItem (word_id di wi) "word" (w_jp w) (w_ko w)
      :: word_items di ws' (S wi)
  end.

Fixpoint catalog_from (plan : list Day) (di : nat) : list QuizItem :=
  match plan with
  | [] => []
  | d :: plan' =>
      word_items di (words d) 0
      ++ mkItem (pattern_id di) "pattern" (pattern d) (pattern_ko d)
      :: catalog_from plan' (S di)
  end.

Definition catalog_items (plan : list Day) : list QuizItem :=
  catalog_from plan 0.

(** A catalog of two days used to exercise the quiz. *)
Definition sample_plan : list Day :=
  [ mkDay "これは~です" "이것은 ~입니다"
      [ mkWord "本" "책"; mkWord "猫" "고양이" ];
    mkDay "~があります" "~이 있습니다"
      [ mkWord "水" "물"; mkWord "犬" "개" ] ].

(** A catalog of one day with three words, and one with four; a random
    source that always draws day 0 and walks through its words. *)
Definition three_word_plan : list Day :=
  [ mkDay "これは~です" "이것은 ~입니다"
      [ mkWord "本" "책"; mkWord "猫" "고양이"; mkWord "水" "물" ] ].

Definition four_word_plan : list Day :=
  [ mkDay "これは~です" "이것은 ~입니다"
      [ mkWord "本" "책"; mkWord "猫" "고양이"; mkWord "水" "물";
        mkWord "犬" "개" ] ].

Definition round_robin (k : nat) : nat * nat := (O, k).

(** ** The quiz hand-off: [startQuiz] *)

(** What [startQuiz] can change: the store, the address the window was sent
    to, and the alerts shown. *)
Record Browser : Type := mkBrowser {
  storage : Storage;
  pathname : string;
  navigated : option string;
  alerts : list string
}.

(** The part of [s] before its last ["/"], if it has one. *)
Fixpoint before_last_slash (s : string) : option string :=
  match s with
  | EmptyString => None
  | String c s' =>
      match before_last_slash s' with
      | Some p => Some (String c p)
      | None => if Ascii.eqb c "/" then Some EmptyString else None
      end
  end.

(** [pathname.replace(/\/[^\/]*$/, '')]. *)
Definition strip_last_segment (s : string) : string :=
  match before_last_slash s with
  | Some p => p
  | None => s
  end.

Definition NOTHING_TO_REVIEW : string := "복습할 항목이 없습니다.".

(** [startQuiz(itemIds)]; [None] is a missing argument ([undefined] or
    [null]). *)
Definition startQuiz (b : Browser) (itemIds : option (list string))
  : Browser :=
  match itemIds with
  | None | Some [] =>
      mkBrowser (storage b) (pathname b) (navigated b)
        (alerts b ++ [NOTHING_TO_REVIEW])
  | Some ids =>
      let st :=
        mkStorage (studyLog (storage b)) (Some (JSON_stringify ids)) in
      let base := strip_last_segment (pathname b) in
      mkBrowser st (pathname b) (Some (base ++ "/quiz.html")%string)
        (alerts b)
  end.

(** ** The quiz page: [buildQuizPage] *)

(** What the element [quiz-container] shows. *)
Inductive view : Type :=
| Untouched
| NoItems
| QuizComplete
| Question (item : QuizItem) (options : list string).

Definition NO_ITEMS_TEXT : string := "퀴즈 항목이 없습니다.".
Definition QUIZ_COMPLETE_HTML : string :=
  "<p>퀴즈 완료! 홈으로 돌아가세요.</p>".

(** The text a view puts on the page: [NoItems] and [QuizComplete] are
    the two messages of the source. *)
Definition view_text (v : view) : string :=
  match v with
  | Untouched => ""
  | NoItems => NO_ITEMS_TEXT
  | QuizComplete => QUIZ_COMPLETE_HTML
  | Question item _ => q_jp item
  end.

(** [Math.floor(Math.random() * n)]: an index below [n], taken from the
    number [r] the random source gives; [0] when [n] is [0]. *)
Definition pick (r n : nat) : nat :=
  match n with
  | O => O
  | S _ => (r mod n)%nat
  end.

(** [while (options.length < 4) { ... }].  The pass number [k] draws the
    pair [rnd k]: its first component chooses the day, its second the word.
    An index outside an array gives [undefined], and reading a property of
    [undefined] throws a [TypeError]. *)
Fixpoint choice_loop (fuel : nat) (plan : list Day) (rnd : nat -> nat * nat)
  (k : nat) (options : list string) : result (list string) :=
  if (List.length options <? 4)%nat then
    match fuel with
    | O => Pending
    | S fuel' =>
        match nth_error plan (pick (fst (rnd k)) (List.length plan)) with
        | None => Throw TypeError
        | Some rd =>
            match nth_error (words rd)
                    (pick (snd (rnd k)) (List.length (words rd))) with
            | None => Throw TypeError
            | Some w =>
                let rw := w_ko w in
                choice_loop fuel' plan rnd (S k)
                  (if includes options rw then options else options ++ [rw])
            end
        end
    end
  else Ok options.

(** The choices of one question: [const options = [answer]], then the
    loop. *)
Definition build_options (fuel : nat) (plan : list Day)
  (rnd : nat -> nat * nat) (answer : string) : result (list string) :=
  choice_loop fuel plan rnd 0 [answer].

(** [showNext()]; [container] tells whether the page has the element
    [quiz-container], and the result is what it shows afterwards.
    [shuffle] is the order [options.sort(() => Math.random() - 0.5)]
    leaves. *)
Definition showNext (fuel : nat) (plan : list Day) (rnd : nat -> nat * nat)
  (shuffle : list string -> list string) (container : bool)
  (items : list QuizItem) (current : nat) : result view :=
  if container then
    match nth_error items current with
    | None => Ok QuizComplete
    | Some item =>
        options <- build_options fuel plan rnd (q_ko item) ;;
        Ok (Question item (shuffle options))
    end
  else Ok Untouched.

(** [loadDailyPlan(callback)]: [fetched] is the catalog the request gave,
    [None] when the request or its decoding failed.  The [catch] of the
    promise chain also receives what [callback] throws, and calls
    [callback([])]. *)
Definition loadDailyPlan (A : Type) (fetched : option (list Day))
  (callback : list Day -> result A) : result A :=
  match fetched with
  | Some plan =>
      match callback plan with
      | Throw _ => callback []
      | r => r
      end
  | None => callback []
  end.

(** [!itemIds.length] needs [itemIds.length] of a value that is no array:
    reading a property of [null] throws a [TypeError]; a string has its
    length; the other values have the property or not. *)
Definition has_length (j : non_array) : result bool :=
  match j with
  | JNull => Throw TypeError
  | JString s => Ok (negb (String.length s =? 0)%nat)
  | JOther length_truthy => Ok length_truthy
  end.

(** [itemIds.includes(id)] on a value that is no array: on a string it is
    the substring test of [String.prototype.includes]; the other values
    have no method [includes], and the call throws a [TypeError]. *)
Definition includes_other (j : non_array) (id : string) : result bool :=
  match j with
  | JString s =>
      Ok (match String.index 0 id s with Some _ => true | None => false end)
  | _ => Throw TypeError
  end.

(** [generateQuizData(itemIds, plan)] when [itemIds] is no array: the same
    two loops, with the method [includes] of that value. *)
Fixpoint words_forEach_other (j : non_array) (di : nat) (ws : list Word)
  (wi : nat) (items : list QuizItem) : result (list QuizItem) :=
  match ws with
  | [] => Ok items
  | w :: ws' =>
      let id := word_id di wi in
      b <- includes_other j id ;;
      words_forEach_other j di ws' (S wi)
        (if b then items ++ [mkItem id "word" (w_jp w) (w_ko w)] else items)
  end.

Fixpoint plan_forEach_other (j : non_array) (plan : list Day) (di : nat)
  (items : list QuizItem) : result (list QuizItem) :=
  match plan with
  | [] => Ok items
  | d :: plan' =>
      items1 <- words_forEach_other j di (words d) 0 items ;;
      let pid := pattern_id di in
      b <- includes_other j pid ;;
      plan_forEach_other j plan' (S di)
        (if b
         then items1 ++ [mkItem pid "pattern" (pattern d) (pattern_ko d)]
         else items1)
  end.

Definition generateQuizData_other (j : non_array) (plan : list Day)
  : result (list QuizItem) :=
  plan_forEach_other j plan 0 [].

(** [buildQuizPage()].  The result is what the container shows at the
    end.  The pending list is an array of strings when [startQuiz] wrote
    it; the key can hold any other JSON value, and the code then goes on
    with that value. *)
Definition buildQuizPage (fuel : nat) (st : Storage) (container : bool)
  (fetched : option (list Day)) (rnd : nat -> nat * nat)
  (shuffle : list string -> list string) : result view :=
  v <- JSON_parse (or_default (quizItems st) (Json [])) ;;
  match v with
  | Array itemIds =>
      match itemIds with
      | [] => Ok (if container then NoItems else Untouched)
      | _ :: _ =>
          loadDailyPlan fetched (fun plan =>
            let items := generateQuizData itemIds plan in
            let current := O in
            showNext fuel plan rnd shuffle container items current)
      end
  | NotArray j =>
      len <- has_length j ;;
      if len then
        loadDailyPlan fetched (fun plan =>
          items <- generateQuizData_other j plan ;;
          let current := O in
          showNext fuel plan rnd shuffle container items current)
      else Ok (if container then NoItems else Untouched)
  end.

(** The handler [btn.onclick] of the choice [opt], up to [current++];
    [showNext()] follows it. *)
Definition select_choice (st : Storage) (now : Z) (item : QuizItem)
  (opt : string) (current : nat) : result (Storage * nat) :=
  let answer := q_ko item in
  st' <- logStudy st now (q_id item) (q_type item)
           (if String.eqb opt answer then "correct" else "wrong")%string ;;
  Ok (st', S current).

(** The target-language strings of the words of the catalog. *)
Definition word_kos (plan : list Day) : list string :=
  flat_map (fun d => map w_ko (words d)) plan.

(** The distinct word strings a question with answer [answer] can take as
    wrong choices. *)
Definition distractors (plan : list Day) (answer : string) : list string :=
  nodup string_dec (remove string_dec answer (word_kos plan)).

(** What the loop keeps true of [options]: the choices are distinct, the
    answer comes first, the others are word strings of the catalog. *)
Definition choices_ok (plan : list Day) (answer : string)
  (options : list string) : Prop :=
  NoDup options /\
  exists others, options = answer :: others /\ incl others (word_kos plan).

(** A random source that keeps producing every word of the catalog: after
    any pass, each word is drawn again at some later pass. *)
Definition exhaustive (plan : list Day) (rnd : nat -> nat * nat) : Prop :=
  forall (k di wi : nat) (d : Day),
    nth_error plan di = Some d ->
    (wi < List.length (words d))%nat ->
    exists j : nat,
      (k <= j)%nat /\
      pick (fst (rnd j)) (List.length plan) = di /\
      pick (snd (rnd j)) (List.length (words d)) = wi.


(** ** Reading decimal names back *)

(** Whether every character of [s] is a decimal digit. *)
Fixpoint all_digits (s : string) : bool :=
  match s with
  | EmptyString => true
  | String c s' => is_digit c && all_digits s'
  end.

(** The number a string of digits writes, continuing from [acc]. *)
Fixpoint decimal_value (acc : Z) (s : string) : Z :=
  match s with
  | EmptyString => acc
  | String c s' =>
      decimal_value (10 * acc + (Z.of_N (N_of_ascii c) - 48)) s'
  end.

(** ** A quiz session: the page between two clicks *)

(** Whether a string holds a ["/"]. *)
Fixpoint has_slash (s : string) : bool :=
  match s with
  | EmptyString => false
  | String c s' => Ascii.eqb c "/" || has_slash s'
  end.

(** What [buildQuizPage] leaves behind for the click handlers: the store,
    the variable [current], and what the container shows. *)
Record Session : Type := mkSession {
  s_storage : Storage;
  s_current : nat;
  s_view : view
}.

(** A click at time [now] on the button labelled [opt].  Only a question
    has buttons, one per choice.  The handler logs the answer for the item
    of the question on the page, increments [current] and calls
    [showNext()], which draws from the random source [rnds current]; if
    [showNext()] throws, the handler ends there, with the store and
    [current] already changed and the page as it was. *)
Definition click (fuel : nat) (plan : list Day)
  (rnds : nat -> nat -> nat * nat) (shuffle : list string -> list string)
  (items : list QuizItem) (s : Session) (opt : string) (now : Z)
  : result Session :=
  match s_view s with
  | Question item options =>
      if includes options opt then
        r <- select_choice (s_storage s) now item opt (s_current s) ;;
        match showNext fuel plan (rnds (snd r)) shuffle true items (snd r)
        with
        | Ok v => Ok (mkSession (fst r) (snd r) v)
        | Throw _ => Ok (mkSession (fst r) (snd r) (s_view s))
        | Pending => Pending
        end
      else Ok s
  | _ => Ok s
  end.

(** A sequence of clicks, each with the text of the button and the time. *)
Fixpoint play (fuel : nat) (plan : list Day)
  (rnds : nat -> nat -> nat * nat) (shuffle : list string -> list string)
  (items : list QuizItem) (s : Session) (clicks : list (string * Z))
  : result Session :=
  match clicks with
  | [] => Ok s
  | (opt, now) :: rest =>
      s' <- click fuel plan rnds shuffle items s opt now ;;
      play fuel plan rnds shuffle items s' rest
  end.

(** What holds of a session between two clicks: the log is the initial
    log [log0] followed by one event per item passed, in the order of the
    items; the pending list is [pending]; the page shows what [showNext()]
    shows at the cursor. *)
Definition session_ok (fuel : nat) (plan : list Day)
  (rnds : nat -> nat -> nat * nat) (shuffle : list string -> list string)
  (items : list QuizItem) (log0 : list StudyEvent)
  (pending : option (stored (list string))) (s : Session) : Prop :=
  (exists evs,
      read_log (s_storage s) = Ok (log0 ++ evs) /\
      map itemId evs = map q_id (firstn (s_current s) items) /\
      map itemType evs = map q_type (firstn (s_current s) items) /\
      Forall (fun e => outcome e = "correct"%string
                       \/ outcome e = "wrong"%string) evs) /\
  quizItems (s_storage s) = pending /\
  (s_current s <= List.length items)%nat /\
  showNext fuel plan (rnds (s_current s)) shuffle true items (s_current s)
  = Ok (s_view s).

(** A session used to exercise the quiz: two words of [four_word_plan],
    the first answered right, the second wrong. *)
Definition sample_items : list QuizItem :=
  generateQuizData ["D1W2"; "D1W1"]%string four_word_plan.

Definition sample_clicks : list (string * Z) :=
  [ ("책"%string, 1736560000000); ("개"%string, 1736560005000) ].

Definition sample_session_end : Session :=
  Eval vm_compute in
    match
      play 8 four_word_plan (fun _ => round_robin) (@rev string) sample_items
        (mkSession sample_storage 0
           (Question (mkItem "D1W1" "word" "本" "책")
              ["개"; "물"; "고양이"; "책"]%string))
        sample_clicks
    with
    | Ok s => s
    | _ => mkSession sample_storage 0 Untouched
    end.

(** ** The sound switch: [speakJA], [enableSound], [initSoundButton] *)

(** The element [btn-enable-sound]: whether [style.display] is ['none'],
    and how many click listeners it has. *)
Record Button : Type := mkButton {
  hidden : bool;
  listeners : nat
}.

(** The flag [SOUND_ENABLED], the key ['soundEnabled'] of the store, and
    the button, if the page has one. *)
Record Sound : Type := mkSound {
  SOUND_ENABLED : bool;
  soundEnabled : option string;
  button : option Button
}.

(** What the page offers for speech: whether [window] has
    [speechSynthesis], and whether [speak] throws. *)
Record Speech : Type := mkSpeech {
  has_speechSynthesis : bool;
  speak_throws : bool
}.

(** [{ text, lang }] of a [SpeechSynthesisUtterance]. *)
Record Utterance : Type := mkUtterance {
  u_text : string;
  u_lang : string
}.

(** [speakJA(text)]: the result, and the utterances queued so far. *)
Definition speakJA (s : Sound) (w : Speech) (queue : list Utterance)
  (text : string) : bool * list Utterance :=
  if negb (SOUND_ENABLED s) then (false, queue)
  else if has_speechSynthesis w then
    let utter := mkUtterance text "ja-JP" in
    if speak_throws w then (false, queue)
    else (true, queue ++ [utter])
  else (false, queue).

Definition hide (b : option Button) : option Button :=
  match b with
  | Some btn => Some (mkButton true (listeners btn))
  | None => None
  end.

(** [enableSound()]. *)
Definition enableSound (s : Sound) : Sound :=
  mkSound true (Some "1"%string) (hide (button s)).

(** [initSoundButton()]. *)
Definition initSoundButton (s : Sound) : Sound :=
  let s1 :=
    match soundEnabled s with
    | Some saved =>
        if String.eqb saved "1"
        then mkSound true (soundEnabled s) (hide (button s))
        else s
    | None => s
    end in
  match button s1 with
  | Some btn =>
      mkSound (SOUND_ENABLED s1) (soundEnabled s1)
        (Some (mkButton (hidden btn) (S (listeners btn))))
  | None => s1
  end.

(** A page load: the script starts with [SOUND_ENABLED: false], the page
    has a fresh button or none, the store is what earlier pages left, and
    the [DOMContentLoaded] listener calls [initSoundButton()]. *)
Definition page_load (saved : option string) (has_button : bool) : Sound :=
  initSoundButton
    (mkSound false saved
       (if has_button then Some (mkButton false O) else None)).

(** A click on the button: each listener calls [enableSound()]; a hidden
    button or one without listener does nothing. *)
Definition click_button (s : Sound) : Sound :=
  match button s with
  | Some btn =>
      if negb (hidden btn) && (0 <? listeners btn)%nat
      then enableSound s else s
  | None => s
  end.

(** * Properties *)

(** ** Dictionaries *)

Section Dictionaries.
Variable A : Type.
Implicit Types (l : list (string * A)) (k : string) (v : A).

Lemma assoc_upsert k k' v l :
  assoc k' (upsert k v l) = if String.eqb k' k then Some v else assoc k' l.
Proof.
  induction l as [|[k0 v0] l IH]; simpl.
  - reflexivity.
  - destruct (String.eqb k k0) eqn:E; simpl.
    + apply String.eqb_eq in E; subst k0.
      destruct (String.eqb k' k); reflexivity.
    + rewrite IH.
      destruct (String.eqb k' k0) eqn:E0, (String.eqb k' k) eqn:E1;
        try reflexivity.
      apply String.eqb_eq in E0, E1; subst.
      rewrite String.eqb_refl in E; discriminate.
Qed.

Lemma assoc_None_keys k l : assoc k l = None <-> ~ In k (keys l).
Proof.
  induction l as [|[k0 v0] l IH]; simpl.
  - tauto.
  - destruct (String.eqb k k0) eqn:E.
    + apply String.eqb_eq in E; subst. split; [discriminate | tauto].
    + apply String.eqb_neq in E. rewrite IH. split.
      * intros H [H0|H0]; [congruence | tauto].
      * tauto.
Qed.

Lemma keys_upsert_In k k' v l :
  In k' (keys (upsert k v l)) <-> k' = k \/ In k' (keys l).
Proof.
  induction l as [|[k0 v0] l IH]; simpl.
  - intuition.
  - destruct (String.eqb k k0) eqn:E; simpl.
    + apply String.eqb_eq in E; subst. intuition.
    + rewrite IH. intuition.
Qed.

Lemma keys_upsert_NoDup k v l : NoDup (keys l) -> NoDup (keys (upsert k v l)).
Proof.
  induction l as [|[k0 v0] l IH]; simpl; intros H.
  - constructor; [intros [] | constructor].
  - inversion H as [|? ? Hn Hd]; subst.
    destruct (String.eqb k k0) eqn:E; simpl.
    + apply String.eqb_eq in E; subst. constructor; assumption.
    + apply String.eqb_neq in E. constructor.
      * rewrite keys_upsert_In. intros [H0|H0]; [congruence | tauto].
      * apply IH; assumption.
Qed.

Lemma assoc_In k v l : NoDup (keys l) -> (In (k, v) l <-> assoc k l = Some v).
Proof.
  induction l as [|[k0 v0] l IH]; simpl; intros H.
  - split; [tauto | discriminate].
  - inversion H as [|? ? Hn Hd]; subst.
    destruct (String.eqb k k0) eqn:E.
    + apply String.eqb_eq in E; subst. split.
      * intros [H0|H0]; [congruence|].
        exfalso. apply Hn. change k0 with (fst (k0, v)).
        apply in_map. assumption.
      * intros H0. left. congruence.
    + apply String.eqb_neq in E. rewrite <- (IH Hd). split.
      * intros [H0|H0]; [congruence | assumption].
      * tauto.
Qed.

(** Two dictionaries with the same lookups hold the same properties. *)
Lemma same_assoc_Permutation l l' :
  NoDup (keys l) -> NoDup (keys l') ->
  (forall k, assoc k l = assoc k l') ->
  Permutation l l'.
Proof.
  intros Hl Hl' H.
  apply NoDup_Permutation.
  - apply (NoDup_map_inv fst). exact Hl.
  - apply (NoDup_map_inv fst). exact Hl'.
  - intros [k v]. rewrite (assoc_In k v l Hl), (assoc_In k v l' Hl'), H.
    tauto.
Qed.

Lemma insert_index_Permutation n v (l : list (N * A)) :
  Permutation (map snd (insert_index n v l)) (v :: map snd l).
Proof.
  induction l as [|[n0 v0] l IH]; simpl.
  - reflexivity.
  - destruct (n <=? n0)%N; simpl.
    + reflexivity.
    + rewrite IH. apply perm_swap.
Qed.

(** [Object.values] returns every own value once. *)
Lemma Object_values_Permutation l :
  Permutation (Object_values l) (map snd l).
Proof.
  unfold Object_values.
  induction l as [|[k v] l IH]; simpl.
  - reflexivity.
  - destruct (array_index k); simpl.
    + rewrite insert_index_Permutation. simpl.
      apply perm_skip. exact IH.
    + rewrite <- Permutation_middle. apply perm_skip. exact IH.
Qed.
End Dictionaries.

(** ** The comparator and the stable sort *)

Lemma sort_compare_before a b :
  numeric a -> numeric b -> (sort_compare a b <= 0 <-> before a b).
Proof.
  intros (ba & ta & Hba & Hta) (bb & tb & Hbb & Htb).
  unfold sort_compare, compareFn, before.
  rewrite Hba, Hta, Hbb, Htb. simpl.
  destruct (bb - ba =? 0) eqn:E; simpl.
  - apply Z.eqb_eq in E. lia.
  - apply Z.eqb_neq in E. lia.
Qed.

Lemma before_total a b : numeric a -> numeric b -> before a b \/ before b a.
Proof.
  intros (ba & ta & Hba & Hta) (bb & tb & Hbb & Htb).
  unfold before. rewrite Hba, Hta, Hbb, Htb. lia.
Qed.

Lemma before_trans a b c : before a b -> before b c -> before a c.
Proof.
  unfold before.
  destruct (best a), (best b), (best c), (lastTs a), (lastTs b), (lastTs c);
    try tauto; lia.
Qed.

Lemma before_tie a b : before a b -> before b a -> tie a b.
Proof.
  unfold before, tie.
  destruct (best a), (best b), (lastTs a), (lastTs b); try tauto.
  intros H1 H2. split; f_equal; lia.
Qed.

Lemma insert_sorted_Permutation x l : Permutation (insert_sorted x l) (x :: l).
Proof.
  induction l as [|y l IH]; simpl.
  - reflexivity.
  - destruct (sort_compare x y <=? 0).
    + reflexivity.
    + rewrite IH. apply perm_swap.
Qed.

(** The sort returns a rearrangement of its input. *)
Lemma Array_sort_Permutation l : Permutation (Array_sort l) l.
Proof.
  induction l as [|x l IH]; simpl.
  - reflexivity.
  - rewrite insert_sorted_Permutation. apply perm_skip. exact IH.
Qed.

Lemma insert_sorted_sorted x l :
  numeric x -> Forall numeric l ->
  StronglySorted before l -> StronglySorted before (insert_sorted x l).
Proof.
  intros Hx Hl Hs.
  induction Hs as [|y l Hs IH Hy]; simpl.
  - constructor; constructor.
  - inversion Hl as [|? ? Hny Hnl]; subst.
    destruct (sort_compare x y <=? 0) eqn:E.
    + apply Z.leb_le in E. apply sort_compare_before in E; trivial.
      constructor.
      * constructor; assumption.
      * constructor; [assumption|].
        eapply Forall_impl; [|exact Hy].
        intros z Hz. eapply before_trans; eassumption.
    + apply Z.leb_gt in E.
      assert (Hyx : before y x).
      { destruct (before_total Hx Hny) as [H|H]; [|exact H].
        apply sort_compare_before in H; trivial. lia. }
      constructor.
      * apply IH; assumption.
      * eapply Permutation_Forall.
        -- symmetry. apply insert_sorted_Permutation.
        -- constructor; assumption.
Qed.

(** On integer records the sort orders by [best] descending, then by
    [lastTs] ascending. *)
Lemma Array_sort_sorted l :
  Forall numeric l -> StronglySorted before (Array_sort l).
Proof.
  induction 1 as [|x l Hx Hl IH]; simpl.
  - constructor.
  - apply insert_sorted_sorted; trivial.
    eapply Permutation_Forall; [|exact Hl].
    symmetry. apply Array_sort_Permutation.
Qed.

(** Two sorted rearrangements of the same records are equal when no two
    different records tie. *)
Lemma sorted_unique l1 : forall l2,
  StronglySorted before l1 -> StronglySorted before l2 ->
  Permutation l1 l2 ->
  (forall a b, In a l1 -> In b l1 -> tie a b -> a = b) ->
  l1 = l2.
Proof.
  induction l1 as [|x l1 IH]; intros l2 H1 H2 HP Ht.
  - apply Permutation_nil in HP. congruence.
  - destruct l2 as [|y l2].
    + apply Permutation_sym, Permutation_nil in HP. discriminate.
    + apply StronglySorted_inv in H1. destruct H1 as [H1 Hx].
      apply StronglySorted_inv in H2. destruct H2 as [H2 Hy].
      rewrite Forall_forall in Hx, Hy.
      assert (Hxy : x = y).
      { assert (Hyin : In y (x :: l1)).
        { eapply Permutation_in; [symmetry; exact HP | left; reflexivity]. }
        assert (Hxin : In x (y :: l2)).
        { eapply Permutation_in; [exact HP | left; reflexivity]. }
        destruct Hyin as [E|Hyin]; [congruence|].
        destruct Hxin as [E|Hxin]; [congruence|].
        apply Ht; [left; reflexivity | right; assumption |].
        apply before_tie; [apply Hx | apply Hy]; assumption. }
      subst y. f_equal.
      apply IH; trivial.
      * eapply Permutation_cons_inv. exact HP.
      * intros a b Ha Hb. apply Ht; right; assumption.
Qed.

(** ** The accumulator of [_rankEvents] *)

Lemma score_of_weight o : inherited o = false -> score_of o = Num (weight o).
Proof.
  intros H. unfold score_of, weight, score. simpl.
  destruct (String.eqb o "wrong"); [reflexivity|].
  destruct (String.eqb o "correct"); [reflexivity|].
  destruct (String.eqb o "view"); [reflexivity|].
  rewrite H. reflexivity.
Qed.

Lemma weight_range o : 0 <= weight o <= 3.
Proof.
  unfold weight.
  destruct (String.eqb o "wrong"); [lia|].
  destruct (String.eqb o "correct"); [lia|].
  destruct (String.eqb o "view"); lia.
Qed.

Lemma fold_max_nonneg l : 0 <= fold_right Z.max 0 l.
Proof. induction l; simpl; lia. Qed.

Lemma fold_max_snoc l x :
  fold_right Z.max 0 (l ++ [x]) = Z.max (fold_right Z.max 0 l) x.
Proof. induction l as [|a l IH]; simpl; [|rewrite IH]; lia. Qed.

Lemma fold_max_Permutation l l' :
  Permutation l l' -> fold_right Z.max 0 l = fold_right Z.max 0 l'.
Proof. induction 1; simpl; lia. Qed.

(** Over non-negative numbers the fold from [0] is the maximum. *)
Lemma fold_max_is_max l :
  l <> [] -> Forall (fun x => 0 <= x) l -> is_max (fold_right Z.max 0 l) l.
Proof.
  intros Hne Hpos. split.
  - induction l as [|a l IH]; [congruence|].
    inversion Hpos as [|? ? Ha Hl]; subst. simpl.
    destruct l as [|b l].
    + left. simpl. lia.
    + destruct (Z.max_spec a (fold_right Z.max 0 (b :: l))) as [[_ E]|[_ E]].
      * right. rewrite E. apply IH; [discriminate | assumption].
      * left. symmetry. exact E.
  - clear Hne Hpos. induction l as [|a l IH]; constructor.
    + simpl. lia.
    + eapply Forall_impl; [|exact IH]. simpl. intros; lia.
Qed.

Lemma accumulate_snoc events e :
  accumulate (events ++ [e]) = rank_step (accumulate events) e.
Proof. unfold accumulate. rewrite fold_left_app. reflexivity. Qed.

Lemma events_of_snoc id events e :
  events_of id (events ++ [e]) =
  events_of id events ++ (if String.eqb (itemId e) id then [e] else []).
Proof. unfold events_of. rewrite filter_app. reflexivity. Qed.

Lemma seen_snoc id events e :
  seen id (events ++ [e]) = seen id events || String.eqb (itemId e) id.
Proof. unfold seen. rewrite existsb_app. simpl. rewrite orb_false_r. reflexivity. Qed.

Lemma seen_events_of id events :
  seen id events = false -> events_of id events = [].
Proof.
  unfold seen, events_of. induction events as [|e l IH]; simpl; [reflexivity|].
  destruct (String.eqb (itemId e) id); simpl; [discriminate | exact IH].
Qed.

Lemma seen_In id events : seen id events = true <-> In id (map itemId events).
Proof.
  unfold seen. rewrite existsb_exists, in_map_iff. split.
  - intros (e & He & E). apply String.eqb_eq in E. exists e. tauto.
  - intros (e & E & He). exists e. split; [assumption|].
    apply String.eqb_eq. assumption.
Qed.

Lemma seen_events_of_nonempty id events :
  seen id events = true -> events_of id events <> [].
Proof.
  unfold seen, events_of. rewrite existsb_exists. intros (e & He & E) H.
  assert (Hin : In e (filter (fun e0 => String.eqb (itemId e0) id) events)).
  { apply filter_In. tauto. }
  rewrite H in Hin. exact Hin.
Qed.

Lemma bestZ_snoc id events e :
  bestZ id (events ++ [e]) =
  if String.eqb (itemId e) id
  then Z.max (bestZ id events) (weight (outcome e))
  else bestZ id events.
Proof.
  unfold bestZ. rewrite events_of_snoc.
  destruct (String.eqb (itemId e) id).
  - rewrite map_app. simpl. apply fold_max_snoc.
  - rewrite app_nil_r. reflexivity.
Qed.

Lemma lastZ_snoc id events e :
  lastZ id (events ++ [e]) =
  if String.eqb (itemId e) id
  then Z.max (lastZ id events) (ts e)
  else lastZ id events.
Proof.
  unfold lastZ. rewrite events_of_snoc.
  destruct (String.eqb (itemId e) id).
  - rewrite map_app. simpl. apply fold_max_snoc.
  - rewrite app_nil_r. reflexivity.
Qed.

(** After the loop over well-formed events, [map] has exactly one own
    property per item seen, holding the two maxima, and its prototype is
    untouched. *)
Lemma accumulate_spec events :
  Forall plain_event events ->
  proto (accumulate events) = None /\
  NoDup (keys (own (accumulate events))) /\
  forall k,
    assoc k (own (accumulate events)) =
    if seen k events
    then Some (mkRanked k (Num (bestZ k events)) (Num (lastZ k events)))
    else None.
Proof.
  induction events as [|e events IH] using rev_ind; intros Hwf.
  - simpl. repeat split. constructor.
  - apply Forall_app in Hwf. destruct Hwf as [Hwf He].
    inversion He as [|? ? (Hid & Ho & Hts) _]; subst.
    destruct (IH Hwf) as (Hp & Hnd & Hassoc). clear IH.
    rewrite accumulate_snoc.
    set (m := accumulate events) in *.
    assert (Hnp : String.eqb (itemId e) "__proto__" = false).
    { destruct (String.eqb (itemId e) "__proto__") eqn:E; [|reflexivity].
      apply String.eqb_eq in E. rewrite E in Hid. discriminate. }
    assert (Hprev : prev_of m (itemId e) =
                    (Num (bestZ (itemId e) events), Num (lastZ (itemId e) events))).
    { unfold prev_of. rewrite Hassoc.
      destruct (seen (itemId e) events) eqn:Es; [reflexivity|].
      rewrite Hp, Hid. unfold bestZ, lastZ.
      rewrite (seen_events_of _ _ Es). reflexivity. }
    unfold rank_step, assign. rewrite Hnp, Hprev, (score_of_weight _ Ho).
    simpl. repeat split.
    + exact Hp.
    + apply keys_upsert_NoDup. exact Hnd.
    + intros k. rewrite assoc_upsert, Hassoc, seen_snoc, bestZ_snoc, lastZ_snoc.
      rewrite (String.eqb_sym k (itemId e)).
      destruct (String.eqb (itemId e) k) eqn:E.
      * apply String.eqb_eq in E. subst k.
        rewrite orb_true_r. reflexivity.
      * rewrite orb_false_r. reflexivity.
Qed.

Lemma filter_Permutation (A : Type) (f : A -> bool) (l l' : list A) :
  Permutation l l' -> Permutation (filter f l) (filter f l').
Proof.
  induction 1 as [|x l l' _ IH|x y l|l l' l'' _ IH1 _ IH2]; simpl.
  - constructor.
  - destruct (f x); [apply perm_skip|]; exact IH.
  - destruct (f x), (f y); try reflexivity. apply perm_swap.
  - etransitivity; eassumption.
Qed.

Lemma seen_Permutation id events events' :
  Permutation events events' -> seen id events = seen id events'.
Proof.
  unfold seen. induction 1; simpl; try congruence.
  destruct (String.eqb (itemId x) id), (String.eqb (itemId y) id); reflexivity.
Qed.

Lemma bestZ_Permutation id events events' :
  Permutation events events' -> bestZ id events = bestZ id events'.
Proof.
  intros H. unfold bestZ, events_of.
  apply fold_max_Permutation, Permutation_map, filter_Permutation, H.
Qed.

Lemma lastZ_Permutation id events events' :
  Permutation events events' -> lastZ id events = lastZ id events'.
Proof.
  intros H. unfold lastZ, events_of.
  apply fold_max_Permutation, Permutation_map, filter_Permutation, H.
Qed.

(** ** The ranked records *)

(** Every own value of the accumulator is the record of an item seen. *)
Lemma accumulate_values events r :
  Forall plain_event events ->
  In r (map snd (own (accumulate events))) ->
  seen (r_itemId r) events = true /\
  In (r_itemId r, r) (own (accumulate events)) /\
  best r = Num (bestZ (r_itemId r) events) /\
  lastTs r = Num (lastZ (r_itemId r) events).
Proof.
  intros Hwf Hin.
  destruct (accumulate_spec Hwf) as (_ & Hnd & Hassoc).
  apply in_map_iff in Hin. destruct Hin as ([k r'] & E & Hin).
  simpl in E. subst r'.
  pose proof Hin as Hin'.
  apply (assoc_In k r _ Hnd) in Hin. rewrite Hassoc in Hin.
  destruct (seen k events) eqn:Es; [|discriminate].
  injection Hin as Hr. subst r. simpl. auto.
Qed.

Lemma rankedItems_Permutation events :
  Permutation (rankedItems events) (map snd (own (accumulate events))).
Proof.
  unfold rankedItems.
  rewrite Array_sort_Permutation. apply Object_values_Permutation.
Qed.

Lemma rankedItems_In events r :
  Forall plain_event events ->
  In r (rankedItems events) ->
  seen (r_itemId r) events = true /\
  best r = Num (bestZ (r_itemId r) events) /\
  lastTs r = Num (lastZ (r_itemId r) events).
Proof.
  intros Hwf Hin.
  apply (Permutation_in _ (rankedItems_Permutation events)) in Hin.
  destruct (accumulate_values _ Hwf Hin) as (H1 & _ & H2 & H3). auto.
Qed.

Lemma rankedItems_sorted events :
  Forall plain_event events -> StronglySorted before (rankedItems events).
Proof.
  intros Hwf. unfold rankedItems. apply Array_sort_sorted.
  apply Forall_forall. intros r Hin.
  apply (Permutation_in _ (Object_values_Permutation _)) in Hin.
  destruct (accumulate_values _ Hwf Hin) as (_ & _ & H2 & H3).
  exists (bestZ (r_itemId r) events), (lastZ (r_itemId r) events). auto.
Qed.

Lemma rank_ids_Permutation events :
  Forall plain_event events ->
  Permutation (_rankEvents events) (keys (own (accumulate events))).
Proof.
  intros Hwf. unfold _rankEvents.
  rewrite (Permutation_map r_itemId (rankedItems_Permutation events)).
  rewrite map_map. unfold keys.
  erewrite map_ext_in; [reflexivity|].
  intros [k r] Hin. simpl.
  assert (Hr : In r (map snd (own (accumulate events)))).
  { apply in_map_iff. exists (k, r). auto. }
  destruct (accumulate_values _ Hwf Hr) as (_ & Hin' & _).
  destruct (accumulate_spec Hwf) as (_ & Hnd & _).
  apply (assoc_In _ _ _ Hnd) in Hin, Hin'.
  destruct (accumulate_spec Hwf) as (_ & _ & Hassoc).
  rewrite Hassoc in Hin.
  destruct (seen k events); [|discriminate].
  injection Hin as Hr'. subst r. reflexivity.
Qed.

Lemma rank_ids_seen events id :
  Forall plain_event events ->
  (In id (_rankEvents events) <-> In id (map itemId events)).
Proof.
  intros Hwf. rewrite <- seen_In.
  destruct (accumulate_spec Hwf) as (_ & _ & Hassoc).
  split.
  - intros Hin.
    apply (Permutation_in _ (rank_ids_Permutation Hwf)) in Hin.
    destruct (seen id events) eqn:Es; [reflexivity|].
    exfalso. revert Hin. apply assoc_None_keys.
    rewrite Hassoc, Es. reflexivity.
  - intros Es.
    apply (Permutation_in _ (Permutation_sym (rank_ids_Permutation Hwf))).
    destruct (in_dec string_dec id (keys (own (accumulate events))))
      as [H|H]; [exact H|].
    apply assoc_None_keys in H. rewrite Hassoc, Es in H. discriminate.
Qed.

(** The records ranked for two orderings of the same events are the same
    records. *)
Lemma rankedItems_Permutation_events events events' :
  Permutation events events' ->
  Forall plain_event events ->
  Permutation (rankedItems events) (rankedItems events').
Proof.
  intros HP Hwf.
  assert (Hwf' : Forall plain_event events').
  { eapply Permutation_Forall; eassumption. }
  rewrite rankedItems_Permutation, rankedItems_Permutation.
  apply Permutation_map.
  destruct (accumulate_spec Hwf) as (_ & Hnd & Hassoc).
  destruct (accumulate_spec Hwf') as (_ & Hnd' & Hassoc').
  apply same_assoc_Permutation; trivial.
  intros k. rewrite Hassoc, Hassoc'.
  rewrite (seen_Permutation k HP), (bestZ_Permutation k HP),
    (lastZ_Permutation k HP).
  reflexivity.
Qed.

(** ** Claims about the ranker *)

Ltac plain_events :=
  repeat constructor; try reflexivity; simpl; lia.

(** C1, as stated, fails: the comparator cannot tell apart two items that
    tie on [best] and [lastTs], and the stable sort leaves them as
    [Object.values] lists them, here in the order in which the input array
    first mentions them: the two orderings of the same two events rank
    differently. *)
Lemma rank_depends_on_event_order :
  let a := mkEvent "itemA" "word" "wrong" 5 in
  let b := mkEvent "itemB" "word" "wrong" 5 in
  Permutation [a; b] [b; a] /\
  Forall plain_event [a; b] /\
  _rankEvents [a; b] = ["itemA"; "itemB"]%string /\
  _rankEvents [b; a] = ["itemB"; "itemA"]%string /\
  _rankEvents [a; b] <> _rankEvents [b; a].
Proof.
  intros a b. split; [apply perm_swap|].
  split; [subst a b; plain_events|].
  split; [reflexivity|]. split; [reflexivity|].
  intros H. vm_compute in H. discriminate H.
Qed.

(** C1, amended: for every reordering of a list of well-formed events the
    ranker lists the same item ids, and it returns the very same sequence
    whenever no two different items tie on both [best] and [lastTs]. *)
Theorem rank_order_independent_without_ties events events' :
  Permutation events events' ->
  Forall plain_event events ->
  Permutation (_rankEvents events) (_rankEvents events') /\
  (no_ties events -> _rankEvents events = _rankEvents events').
Proof.
  intros HP Hwf.
  assert (Hwf' : Forall plain_event events').
  { eapply Permutation_Forall; eassumption. }
  pose proof (rankedItems_Permutation_events HP Hwf) as HR.
  split.
  - unfold _rankEvents. apply Permutation_map. exact HR.
  - intros Hnt. unfold _rankEvents. f_equal.
    apply sorted_unique; trivial; try (apply rankedItems_sorted; assumption).
    intros x y Hx Hy [Hb Ht].
    destruct (rankedItems_In _ Hwf Hx) as (Sx & Bx & Tx).
    destruct (rankedItems_In _ Hwf Hy) as (Sy & By & Ty).
    assert (E : r_itemId x = r_itemId y).
    { apply Hnt.
      - apply seen_In. exact Sx.
      - apply seen_In. exact Sy.
      - rewrite Bx, By in Hb. congruence.
      - rewrite Tx, Ty in Ht. congruence. }
    destruct x, y. simpl in *. congruence.
Qed.

Lemma rank_order_independent_without_ties_witness :
  let a := mkEvent "itemA" "word" "wrong" 10 in
  let b := mkEvent "itemB" "word" "wrong" 5 in
  let c := mkEvent "itemA" "word" "view" 20 in
  _rankEvents [a; b; c] = _rankEvents [c; b; a].
Proof.
  intros a b c.
  assert (HP : Permutation [a; b; c] [c; b; a]).
  { change [c; b; a] with (rev [a; b; c]). apply Permutation_rev. }
  assert (Hwf : Forall plain_event [a; b; c]).
  { subst a b c. plain_events. }
  apply (proj2 (rank_order_independent_without_ties HP Hwf)).
  intros id1 id2 H1 H2.
  simpl in H1, H2.
  destruct H1 as [<-|[<-|[<-|[]]]]; destruct H2 as [<-|[<-|[<-|[]]]];
    vm_compute; intros; congruence.
Defined.

(** X17: for well-formed events (a timestamp of [0] or more, an item id
    and an outcome that are no names inherited from [Object.prototype])
    the ranker keeps one record per item, whose [best] is the largest
    severity weight (wrong=3, correct=2, view=1, unknown=0) and whose
    [lastTs] is the largest timestamp of the events of the item, and lists
    the item ids by [best] descending, then [lastTs] ascending; the two
    orderings the specification gives as examples follow. *)
Theorem rank_by_severity_then_age :
  (forall events : list StudyEvent,
      Forall plain_event events ->
      _rankEvents events = map r_itemId (rankedItems events) /\
      StronglySorted before (rankedItems events) /\
      NoDup (_rankEvents events) /\
      (forall id, In id (_rankEvents events) <-> In id (map itemId events)) /\
      (forall r, In r (rankedItems events) ->
         exists b t : Z,
           best r = Num b /\ lastTs r = Num t /\
           is_max b (map (fun e => weight (outcome e))
                       (events_of (r_itemId r) events)) /\
           is_max t (map ts (events_of (r_itemId r) events)))) /\
  (forall (ty1 ty2 ty3 : string) (t1 t2 t3 : Z),
      _rankEvents [mkEvent "itemA" ty1 "correct" t1;
                   mkEvent "itemB" ty2 "wrong" t2;
                   mkEvent "itemC" ty3 "view" t3]
      = ["itemB"; "itemA"; "itemC"]%string) /\
  (forall ty1 ty2 : string,
      _rankEvents [mkEvent "itemA" ty1 "wrong" 10;
                   mkEvent "itemB" ty2 "wrong" 5]
      = ["itemB"; "itemA"]%string).
Proof.
  split; [|split].
  - intros events Hwf. split; [reflexivity|].
    split; [apply rankedItems_sorted; exact Hwf|].
    split.
    { eapply Permutation_NoDup.
      - symmetry. apply rank_ids_Permutation. exact Hwf.
      - apply (accumulate_spec Hwf). }
    split; [intros id; apply rank_ids_seen; exact Hwf|].
    intros r Hin.
    destruct (rankedItems_In _ Hwf Hin) as (Hs & Hb & Ht).
    exists (bestZ (r_itemId r) events), (lastZ (r_itemId r) events).
    split; [exact Hb|]. split; [exact Ht|].
    pose proof (seen_events_of_nonempty _ _ Hs) as Hne.
    assert (Hsub : Forall plain_event (events_of (r_itemId r) events)).
    { apply Forall_forall. intros e He. apply filter_In in He.
      rewrite Forall_forall in Hwf. apply Hwf. tauto. }
    split; apply fold_max_is_max.
    + intros E. apply map_eq_nil in E. contradiction.
    + apply Forall_map. eapply Forall_impl; [|exact Hsub].
      intros e _. apply weight_range.
    + intros E. apply map_eq_nil in E. contradiction.
    + apply Forall_map. eapply Forall_impl; [|exact Hsub].
      intros e (_ & _ & H). exact H.
  - intros. reflexivity.
  - intros. reflexivity.
Qed.

Lemma rank_by_severity_then_age_witness :
  let events := [mkEvent "D1W1" "word" "view" 1736434800000;
                 mkEvent "D1P" "pattern" "wrong" 1736434900000;
                 mkEvent "D1W1" "word" "correct" 1736435000000] in
  Forall plain_event events /\
  StronglySorted before (rankedItems events) /\
  _rankEvents events = ["D1P"; "D1W1"]%string.
Proof.
  intros events.
  assert (Hwf : Forall plain_event events) by (subst events; plain_events).
  split; [exact Hwf|].
  split.
  - apply (proj1 rank_by_severity_then_age events Hwf).
  - reflexivity.
Defined.

(** C2, where the code departs from it: [map[id] || { ... }] is meant to
    start a fresh record for an item not seen before, but for the item id
    ["constructor"] the lookup finds the function every object inherits,
    which is truthy and has neither [best] nor [lastTs].  The record of
    the item gets [best = NaN] and [lastTs = NaN], not the largest weight
    and the largest timestamp of its events; the comparator answers [NaN]
    for it, and the item, although answered wrong, stays behind an item
    that was only viewed. *)
Theorem rank_item_id_inherited_name :
  let a := mkEvent "D1W1" "word" "view" 1736434800000 in
  let b := mkEvent "constructor" "word" "wrong" 1736434900000 in
  weight (outcome a) = 1 /\ weight (outcome b) = 3 /\
  prev_of empty_map (itemId b) = (NaN, NaN) /\
  rankedItems [b] = [mkRanked "constructor" NaN NaN] /\
  rankedItems [a; b]
  = [mkRanked "D1W1" (Num 1) (Num 1736434800000);
     mkRanked "constructor" NaN NaN] /\
  _rankEvents [a; b] = ["D1W1"; "constructor"]%string /\
  _rankEvents [a; b] <> ["constructor"; "D1W1"]%string.
Proof.
  intros a b.
  repeat (split; [reflexivity|]).
  intros H. vm_compute in H. discriminate H.
Qed.

(** A timestamp before the epoch is not kept either: the accumulator
    starts from [lastTs: 0], so the largest timestamp is floored at [0],
    and two such items tie where their timestamps differ. *)
Lemma rank_floors_timestamps_before_epoch :
  let a := mkEvent "itemA" "word" "wrong" (-10) in
  let b := mkEvent "itemB" "word" "wrong" (-5) in
  rankedItems [b; a]
  = [mkRanked "itemB" (Num 3) (Num 0); mkRanked "itemA" (Num 3) (Num 0)] /\
  _rankEvents [b; a] = ["itemB"; "itemA"]%string.
Proof.
  intros a b. split; reflexivity.
Qed.

(** The empty log ranks to the empty list, and an outcome that is neither
    a key of [score] nor a name inherited from [Object.prototype] weighs
    [0] while its item is still listed, with [best = 0] when it is the only
    event of the item. *)
Lemma rank_unknown_outcome_plain :
  _rankEvents [] = [] /\
  forall (events : list StudyEvent) (e : StudyEvent),
    Forall plain_event events -> In e events ->
    outcome e <> "wrong"%string -> outcome e <> "correct"%string ->
    outcome e <> "view"%string ->
    score_of (outcome e) = Num 0 /\
    In (itemId e) (_rankEvents events) /\
    (events_of (itemId e) events = [e] ->
     exists t, In (mkRanked (itemId e) (Num 0) (Num t)) (rankedItems events)).
Proof.
  split; [reflexivity|].
  intros events e Hwf Hin Hw Hc Hv.
  assert (He : plain_event e) by (rewrite Forall_forall in Hwf; auto).
  destruct He as (_ & Ho & _).
  assert (Hz : weight (outcome e) = 0).
  { unfold weight.
    apply String.eqb_neq in Hw, Hc, Hv. rewrite Hw, Hc, Hv. reflexivity. }
  split; [rewrite (score_of_weight _ Ho), Hz; reflexivity|].
  assert (Hid : In (itemId e) (_rankEvents events)).
  { apply rank_ids_seen; [exact Hwf|]. apply in_map. exact Hin. }
  split; [exact Hid|].
  intros Hone.
  unfold _rankEvents in Hid. apply in_map_iff in Hid.
  destruct Hid as (r & Er & Hr).
  destruct (rankedItems_In _ Hwf Hr) as (_ & Hb & Ht).
  exists (lastZ (itemId e) events).
  destruct r as [i b t]. simpl in *. subst i.
  rewrite Hb, Ht in Hr.
  unfold bestZ in Hr. rewrite Hone in Hr. simpl in Hr.
  rewrite Hz in Hr. exact Hr.
Qed.

(** C9, where the code departs from it: the outcome ["constructor"] is in
    none of wrong/correct/view, but [score["constructor"]] is the function
    every object inherits, so the weight is [NaN] and the item is ranked
    with [best = NaN], not [0]. *)
Theorem rank_unknown_outcome_inherited_name :
  let e := mkEvent "D1W1" "word" "constructor" 1736434800000 in
  score_of (outcome e) = NaN /\
  rankedItems [e] = [mkRanked "D1W1" NaN (Num 1736434800000)] /\
  _rankEvents [e] = ["D1W1"%string].
Proof.
  intros e. split; [|split].
  - reflexivity.
  - reflexivity.
  - reflexivity.
Qed.

(** ** The calendar *)

Lemma days_in_month_range y m : 28 <= days_in_month y m <= 31.
Proof.
  unfold days_in_month.
  destruct (m =? 2); [destruct (is_leap y); lia|].
  destruct ((m =? 4) || (m =? 6) || (m =? 9) || (m =? 11)); lia.
Qed.

Lemma next_day_valid d : valid_date d -> valid_date (next_day d).
Proof.
  unfold valid_date, next_day. intros (Hm & Hd).
  destruct (day d <? days_in_month (year d) (month d)) eqn:E; simpl.
  - apply Z.ltb_lt in E. lia.
  - destruct (month d <? 12) eqn:E'; simpl.
    + apply Z.ltb_lt in E'.
      pose proof (days_in_month_range (year d) (month d + 1)). lia.
    + pose proof (days_in_month_range (year d + 1) 1). lia.
Qed.

Lemma next_day_later d : valid_date d -> date_compare d (next_day d) = Lt.
Proof.
  unfold valid_date, next_day, date_compare. intros (Hm & Hd).
  destruct (day d <? days_in_month (year d) (month d)) eqn:E; simpl.
  - rewrite !Z.compare_refl. apply Z.compare_lt_iff. lia.
  - destruct (month d <? 12) eqn:E'; simpl.
    + apply Z.ltb_lt in E'. rewrite Z.compare_refl.
      replace (month d ?= month d + 1) with Lt; [reflexivity|].
      symmetry. apply Z.compare_lt_iff. lia.
    + replace (year d ?= year d + 1) with Lt; [reflexivity|].
      symmetry. apply Z.compare_lt_iff. lia.
Qed.

Lemma date_compare_Lt a b :
  date_compare a b = Lt <->
  year a < year b \/
  (year a = year b /\
   (month a < month b \/ (month a = month b /\ day a < day b))).
Proof.
  unfold date_compare.
  destruct (Z.compare_spec (year a) (year b)) as [Ey|Ey|Ey].
  - destruct (Z.compare_spec (month a) (month b)) as [Em|Em|Em].
    + rewrite Z.compare_lt_iff. lia.
    + split; [lia | reflexivity].
    + split; [discriminate | lia].
  - split; [lia | reflexivity].
  - split; [discriminate | lia].
Qed.

Lemma date_compare_trans a b c :
  date_compare a b = Lt -> date_compare b c = Lt -> date_compare a c = Lt.
Proof. rewrite !date_compare_Lt. lia. Qed.

Lemma civil_of_days_succ n :
  0 <= n -> civil_of_days (Z.succ n) = next_day (civil_of_days n).
Proof.
  intros H. unfold civil_of_days.
  destruct n as [|p|p]; [reflexivity | | lia].
  simpl. rewrite Pos.add_1_r. apply Pos.iter_succ.
Qed.

Lemma civil_of_days_valid n : 0 <= n -> valid_date (civil_of_days n).
Proof.
  revert n. apply natlike_ind.
  - unfold valid_date. change (civil_of_days 0) with (mkDate 1970 1 1).
    cbn. lia.
  - intros n Hn IH. rewrite civil_of_days_succ by exact Hn.
    apply next_day_valid. exact IH.
Qed.

(** A later day number is a later date. *)
Lemma civil_of_days_increasing n m :
  0 <= n -> n < m ->
  date_compare (civil_of_days n) (civil_of_days m) = Lt.
Proof.
  intros Hn Hlt.
  assert (Hm : 0 <= m) by lia. revert m Hm Hlt.
  apply (natlike_ind (fun m => n < m ->
           date_compare (civil_of_days n) (civil_of_days m) = Lt)).
  - lia.
  - intros m Hm IH Hlt. rewrite civil_of_days_succ by exact Hm.
    destruct (Z.eq_dec n m) as [<-|Hne].
    + apply next_day_later, civil_of_days_valid. exact Hn.
    + eapply date_compare_trans.
      * apply IH. lia.
      * apply next_day_later, civil_of_days_valid. exact Hm.
Qed.

Lemma date_compare_refl d : date_compare d d = Eq.
Proof. unfold date_compare. rewrite !Z.compare_refl. reflexivity. Qed.

(** The date decides the day number. *)
Lemma civil_of_days_compare n m :
  0 <= n -> 0 <= m ->
  date_compare (civil_of_days n) (civil_of_days m) = (n ?= m).
Proof.
  intros Hn Hm. destruct (Z.compare_spec n m) as [E|E|E].
  - subst. apply date_compare_refl.
  - apply civil_of_days_increasing; assumption.
  - pose proof (civil_of_days_increasing Hm E) as H.
    unfold date_compare in *.
    rewrite (Z.compare_antisym (year (civil_of_days n))),
      (Z.compare_antisym (month (civil_of_days n))),
      (Z.compare_antisym (day (civil_of_days n))) in H.
    destruct (year (civil_of_days n) ?= year (civil_of_days m));
      simpl in H; try discriminate; try reflexivity.
    destruct (month (civil_of_days n) ?= month (civil_of_days m));
      simpl in H; try discriminate; try reflexivity.
    destruct (day (civil_of_days n) ?= day (civil_of_days m));
      simpl in H; try discriminate; reflexivity.
Qed.

Lemma civil_of_days_year_mono n m :
  0 <= n -> n <= m -> year (civil_of_days n) <= year (civil_of_days m).
Proof.
  intros Hn Hle.
  pose proof (civil_of_days_compare Hn (Z.le_trans _ _ _ Hn Hle)) as H.
  unfold date_compare in H.
  destruct (Z.compare_spec (year (civil_of_days n)) (year (civil_of_days m)));
    try lia.
  destruct (Z.compare_spec n m); try lia; discriminate.
Qed.

(** ** The printed date *)

Ltac div_lia := Z.to_euclidean_division_equations; lia.

Lemma digit_compare x y :
  0 <= x <= 9 -> 0 <= y <= 9 -> Ascii.compare (digit x) (digit y) = (x ?= y).
Proof.
  intros Hx Hy.
  assert (Ex : x = 0 \/ x = 1 \/ x = 2 \/ x = 3 \/ x = 4 \/ x = 5 \/ x = 6
               \/ x = 7 \/ x = 8 \/ x = 9) by lia.
  assert (Ey : y = 0 \/ y = 1 \/ y = 2 \/ y = 3 \/ y = 4 \/ y = 5 \/ y = 6
               \/ y = 7 \/ y = 8 \/ y = 9) by lia.
  clear Hx Hy.
  repeat (destruct Ex as [Ex|Ex]; [subst x|]); try subst x;
    repeat (destruct Ey as [Ey|Ey]; [subst y|]); try subst y; reflexivity.
Qed.

Lemma compare_by_hundreds (p x y : Z) :
  0 < p ->
  (x ?= y) =
  match x / p ?= y / p with
  | Eq => x mod p ?= y mod p
  | c => c
  end.
Proof.
  intros Hp.
  pose proof (Z.div_mod x p ltac:(lia)) as Hx.
  pose proof (Z.div_mod y p ltac:(lia)) as Hy.
  pose proof (Z.mod_pos_bound x p Hp) as Bx.
  pose proof (Z.mod_pos_bound y p Hp) as By.
  destruct (Z.compare_spec (x / p) (y / p)) as [E|E|E].
  - rewrite Hx, Hy at 1. rewrite E.
    destruct (Z.compare_spec (x mod p) (y mod p)) as [E'|E'|E'].
    + rewrite E'. apply Z.compare_refl.
    + apply Z.compare_lt_iff. lia.
    + apply Z.compare_gt_iff. lia.
  - apply Z.compare_lt_iff. nia.
  - apply Z.compare_gt_iff. nia.
Qed.

Lemma two_digits_compare m m' s s' :
  0 <= m <= 99 -> 0 <= m' <= 99 ->
  String.compare (two_digits m ++ s) (two_digits m' ++ s') =
  match m ?= m' with
  | Eq => String.compare s s'
  | c => c
  end.
Proof.
  intros Hm Hm'. unfold two_digits. simpl.
  rewrite !digit_compare by div_lia.
  rewrite (@compare_by_hundreds 10 m m') by lia.
  destruct (m / 10 ?= m' / 10); reflexivity.
Qed.

Lemma decimal_four_digits y :
  1000 <= y <= 9999 ->
  decimal y = (two_digits (y / 100) ++ two_digits (y mod 100))%string.
Proof.
  intros Hy. unfold decimal.
  assert (Hl : 9 <= Z.log2 y).
  { change 9 with (Z.log2 512). apply Z.log2_le_mono. lia. }
  destruct (Z.to_nat (Z.log2 y)) as [|[|[|f]]] eqn:E; try lia.
  cbn [decimal_aux].
  replace (y <? 10) with false by (symmetry; apply Z.ltb_ge; div_lia).
  replace (y / 10 <? 10) with false by (symmetry; apply Z.ltb_ge; div_lia).
  replace (y / 10 / 10 <? 10) with false by (symmetry; apply Z.ltb_ge; div_lia).
  replace (y / 10 / 10 / 10 <? 10) with true by (symmetry; apply Z.ltb_lt; div_lia).
  unfold two_digits. simpl.
  repeat match goal with
         | |- String (digit ?a) _ = String (digit ?b) _ =>
             replace a with b by div_lia; f_equal
         end.
Qed.

Lemma dash_compare s s' :
  String.compare ("-" ++ s) ("-" ++ s') = String.compare s s'.
Proof. reflexivity. Qed.

Lemma format_en_CA_four_digit_year d :
  1000 <= year d <= 9999 ->
  format_en_CA d =
  (two_digits (year d / 100) ++ (two_digits (year d mod 100) ++
   ("-" ++ (two_digits (month d) ++ ("-" ++ (two_digits (day d) ++ ""))))))%string.
Proof.
  intros Hy. unfold format_en_CA. rewrite (decimal_four_digits Hy).
  reflexivity.
Qed.

(** With four-digit years the printed dates compare as the dates do. *)
Lemma format_en_CA_compare a b :
  valid_date a -> valid_date b ->
  1000 <= year a <= 9999 -> 1000 <= year b <= 9999 ->
  String.compare (format_en_CA a) (format_en_CA b) = date_compare a b.
Proof.
  intros (Hma & Hda) (Hmb & Hdb) Hya Hyb.
  pose proof (days_in_month_range (year a) (month a)).
  pose proof (days_in_month_range (year b) (month b)).
  rewrite (format_en_CA_four_digit_year _ Hya),
    (format_en_CA_four_digit_year _ Hyb).
  rewrite two_digits_compare by div_lia.
  rewrite two_digits_compare by div_lia.
  rewrite dash_compare, two_digits_compare by lia.
  rewrite dash_compare, two_digits_compare by lia.
  unfold date_compare.
  rewrite (@compare_by_hundreds 100 (year a) (year b)) by lia.
  destruct (year a / 100 ?= year b / 100); try reflexivity.
  destruct (year a mod 100 ?= year b mod 100); try reflexivity.
  destruct (month a ?= month b); try reflexivity.
  destruct (day a ?= day b); reflexivity.
Qed.

(** ** Days in Asia/Seoul *)

Lemma kst_day_daysAgo now n : kst_day (_daysAgo now n) = kst_day now - n.
Proof.
  unfold kst_day, _daysAgo, MS_PER_DAY, KST_OFFSET.
  replace (now - n * 24 * 60 * 60 * 1000 + 9 * 60 * 60 * 1000)
    with (now + 9 * 60 * 60 * 1000 + (- n) * (24 * 60 * 60 * 1000)) by lia.
  rewrite Z.div_add by lia. lia.
Qed.

Lemma kst_ok_day t : kst_ok t -> 6856 <= kst_day t.
Proof.
  intros (H & _). unfold kst_day, MS_PER_DAY, KST_OFFSET, KST_SINCE in *.
  div_lia.
Qed.

Lemma kst_ok_year t : kst_ok t -> 1000 <= year (civil_of_days (kst_day t)) <= 9999.
Proof.
  intros H. pose proof (kst_ok_day H) as Hd. destruct H as (_ & Hy).
  split; [|exact Hy].
  assert (H88 : year (civil_of_days 6856) = 1988) by (vm_compute; reflexivity).
  pose proof (@civil_of_days_year_mono 6856 (kst_day t) ltac:(lia) Hd). lia.
Qed.

(** Inside the domain of the model the printed Asia/Seoul dates of two
    instants compare as their day numbers do. *)
Lemma kstYMD_compare t t' :
  kst_ok t -> kst_ok t' ->
  String.compare (_kstYMD t) (_kstYMD t') = (kst_day t ?= kst_day t').
Proof.
  intros H H'.
  pose proof (kst_ok_day H). pose proof (kst_ok_day H').
  unfold _kstYMD.
  rewrite format_en_CA_compare.
  - apply civil_of_days_compare; lia.
  - apply civil_of_days_valid; lia.
  - apply civil_of_days_valid; lia.
  - apply kst_ok_year; assumption.
  - apply kst_ok_year; assumption.
Qed.

Lemma string_compare_refl s : String.compare s s = Eq.
Proof.
  pose proof (String.compare_antisym s s) as H.
  destruct (String.compare s s); simpl in H; congruence.
Qed.

Lemma kstYMD_eqb t t' :
  kst_ok t -> kst_ok t' ->
  String.eqb (_kstYMD t) (_kstYMD t') = (kst_day t =? kst_day t').
Proof.
  intros H H'. pose proof (kstYMD_compare H H') as Hc.
  destruct (Z.eqb_spec (kst_day t) (kst_day t')) as [E|E].
  - apply String.eqb_eq. apply String.compare_eq_iff.
    rewrite Hc, E. apply Z.compare_refl.
  - apply String.eqb_neq. intros Es. rewrite Es, string_compare_refl in Hc.
    symmetry in Hc. apply Z.compare_eq in Hc. contradiction.
Qed.

Lemma kstYMD_leb t t' :
  kst_ok t -> kst_ok t' ->
  String.leb (_kstYMD t) (_kstYMD t') = (kst_day t <=? kst_day t').
Proof.
  intros H H'. unfold String.leb. rewrite (kstYMD_compare H H').
  unfold Z.leb. reflexivity.
Qed.

Lemma on_kst_date_day t y m d n :
  on_kst_date t y m d -> 0 <= n -> civil_of_days n = mkDate y m d ->
  kst_day t = n.
Proof.
  intros (Ht & Hd) Hn En.
  assert (H0 : 0 <= kst_day t).
  { unfold kst_day, MS_PER_DAY, KST_OFFSET, KST_SINCE in *. div_lia. }
  apply Z.compare_eq. rewrite <- (civil_of_days_compare H0 Hn).
  rewrite Hd, En. apply date_compare_refl.
Qed.

Lemma on_kst_date_ok t y m d :
  on_kst_date t y m d -> y <= 9999 -> kst_ok t.
Proof.
  intros (Ht & Hd) Hy. split; [exact Ht|]. rewrite Hd. exact Hy.
Qed.

Lemma yesterday_events_filter now log :
  kst_ok (_daysAgo now 1) -> Forall (fun e => kst_ok (ts e)) log ->
  yesterday_events now log =
  filter (fun e => kst_day (ts e) =? kst_day now - 1) log.
Proof.
  intros Hnow Hlog. unfold yesterday_events.
  apply filter_ext_in. intros e He.
  rewrite Forall_forall in Hlog.
  rewrite (kstYMD_eqb (Hlog e He) Hnow), kst_day_daysAgo. reflexivity.
Qed.

Lemma last7_events_filter now7 now1 log :
  kst_day now7 = kst_day now1 ->
  kst_ok (_daysAgo now7 7) -> kst_ok (_daysAgo now1 1) ->
  Forall (fun e => kst_ok (ts e)) log ->
  last7_events now7 now1 log =
  filter (fun e => (kst_day now1 - 7 <=? kst_day (ts e))
                   && (kst_day (ts e) <=? kst_day now1 - 1)) log.
Proof.
  intros Hsame H7 H1 Hlog. unfold last7_events.
  apply filter_ext_in. intros e He.
  rewrite Forall_forall in Hlog.
  rewrite (kstYMD_leb H7 (Hlog e He)), (kstYMD_leb (Hlog e He) H1).
  rewrite !kst_day_daysAgo, Hsame. reflexivity.
Qed.

Lemma kst_ok_by_day t n :
  kst_day t = n -> 6857 <= n -> year (civil_of_days n) <= 9999 -> kst_ok t.
Proof.
  intros Hd Hn Hy. split.
  - unfold kst_day, MS_PER_DAY, KST_OFFSET, KST_SINCE in *. div_lia.
  - rewrite Hd. exact Hy.
Qed.

Ltac kst_ok_at n :=
  apply (@kst_ok_by_day _ n);
  [ rewrite ?kst_day_daysAgo; lia | lia | vm_compute; discriminate ].

Ltac day_of H n :=
  apply (@on_kst_date_day _ _ _ _ n) in H; [ | lia | vm_compute; reflexivity ].

(** ** Claims about the review sets *)

(** C3, where the code departs from it: [getLast7DaysReviewSet] reads the
    clock twice, once for [start] and once for [end].  When the Asia/Seoul
    date changes between the two readings, [start] is seven days before
    the old date and [end] is the old date itself: the window has eight
    days.  The set returned holds both an event of 2025-01-07 and an event
    of 2025-01-14, which no reading of "now" allows together: seen from
    2025-01-15 the first is too old, seen from 2025-01-14 the second is of
    today.  With one reading of the clock for both ends, either one, only
    one of the two is returned. *)
Theorem last7_window_across_midnight :
  let st := mkStorage (Some (Json midnight_log)) None in
  on_kst_date before_midnight 2025 1 14 /\
  on_kst_date at_midnight 2025 1 15 /\
  at_midnight = before_midnight + 1 /\
  Forall2 (fun e d => on_kst_date (ts e) 2025 1 d) midnight_log [7; 14] /\
  last7_events before_midnight at_midnight midnight_log = midnight_log /\
  getLast7DaysReviewSet st before_midnight at_midnight default_max
  = Ok ["D1W1"; "D1W2"]%string /\
  getLast7DaysReviewSet st before_midnight before_midnight default_max
  = Ok ["D1W1"%string] /\
  getLast7DaysReviewSet st at_midnight at_midnight default_max
  = Ok ["D1W2"%string].
Proof.
  intros st.
  assert (Hd : forall t y m d,
             (KST_SINCE <=? t) = true ->
             civil_of_days (kst_day t) = mkDate y m d ->
             on_kst_date t y m d).
  { intros t y m d H1 H2. split; [apply Z.leb_le; exact H1 | exact H2]. }
  split; [apply Hd; vm_compute; reflexivity|].
  split; [apply Hd; vm_compute; reflexivity|].
  split; [reflexivity|].
  split.
  { repeat constructor; vm_compute; try reflexivity; discriminate. }
  split; [vm_compute; reflexivity|].
  split; [vm_compute; reflexivity|].
  split; vm_compute; reflexivity.
Qed.

Example sample_review_sets :
  getYesterdayReviewSet sample_storage sample_now default_max
  = Ok ["D1W1"%string] /\
  getLast7DaysReviewSet sample_storage sample_now sample_now default_max
  = Ok ["D1W1"%string; "D2P"%string].
Proof. split; vm_compute; reflexivity. Qed.

(** ** Quiz resolution *)

Lemma words_forEach_filter itemIds di ws : forall wi items,
  words_forEach itemIds di ws wi items =
  items ++ filter (fun q => includes itemIds (q_id q)) (word_items di ws wi).
Proof.
  induction ws as [|w ws IH]; intros wi items; simpl.
  - symmetry. apply app_nil_r.
  - rewrite IH.
    destruct (includes itemIds (word_id di wi)).
    + rewrite <- app_assoc. reflexivity.
    + reflexivity.
Qed.

Lemma plan_forEach_filter itemIds plan : forall di items,
  plan_forEach itemIds plan di items =
  items ++ filter (fun q => includes itemIds (q_id q)) (catalog_from plan di).
Proof.
  induction plan as [|d plan IH]; intros di items; simpl.
  - symmetry. apply app_nil_r.
  - rewrite IH, words_forEach_filter, filter_app. simpl.
    destruct (includes itemIds (pattern_id di)).
    + rewrite <- !app_assoc. reflexivity.
    + rewrite <- app_assoc. reflexivity.
Qed.

Lemma includes_In l x : includes l x = true <-> In x l.
Proof.
  unfold includes. rewrite existsb_exists. split.
  - intros (y & Hy & E). apply String.eqb_eq in E. subst. exact Hy.
  - intros H. exists x. split; [exact H | apply String.eqb_refl].
Qed.

Lemma includes_ext l l' :
  (forall x, In x l <-> In x l') -> forall x, includes l x = includes l' x.
Proof.
  intros H x.
  destruct (includes l x) eqn:E, (includes l' x) eqn:E'; try reflexivity.
  - apply includes_In, H, includes_In in E. congruence.
  - apply includes_In, H, includes_In in E'. congruence.
Qed.

Lemma decimal_aux_length f : forall n acc,
  (String.length acc <= String.length (decimal_aux f n acc))%nat.
Proof.
  induction f as [|f IH]; intros n acc; simpl.
  - lia.
  - destruct (n <? 10).
    + simpl. lia.
    + etransitivity; [|apply IH]. simpl. lia.
Qed.

(** Only the number one is written ["1"]. *)
Lemma decimal_not_one n : 2 <= n -> decimal n <> "1"%string.
Proof.
  intros Hn. unfold decimal.
  destruct (Z.ltb_spec n 10) as [Hlt|Hge].
  - simpl. replace (n <? 10) with true by (symmetry; apply Z.ltb_lt; lia).
    replace (n mod 10) with n by div_lia.
    assert (E : n = 2 \/ n = 3 \/ n = 4 \/ n = 5 \/ n = 6 \/ n = 7 \/ n = 8
                \/ n = 9) by lia.
    repeat (destruct E as [E|E]; [subst n; discriminate|]).
    subst n; discriminate.
  - simpl. replace (n <? 10) with false by (symmetry; apply Z.ltb_ge; lia).
    intros E.
    pose proof (decimal_aux_length (Z.to_nat (Z.log2 n)) (n / 10)
                  (String (digit (n mod 10)) "")) as Hl.
    rewrite E in Hl. simpl in Hl.
    assert (Hlog : 3 <= Z.log2 n).
    { change 3 with (Z.log2 8). apply Z.log2_le_mono. lia. }
    destruct (Z.to_nat (Z.log2 n)) as [|f] eqn:Ef; [lia|].
    simpl in E.
    pose proof (decimal_aux_length f (n / 10 / 10)
                  (String (digit (n / 10 mod 10))
                     (String (digit (n mod 10)) ""))) as Hl2.
    destruct (n / 10 <? 10); [discriminate|].
    rewrite E in Hl2. simpl in Hl2. lia.
Qed.

(** ** Claims about quiz resolution *)

(** C4: the quiz items come out in catalog order (day after day, the words
    of a day and then its pattern) whatever the order of the requested ids;
    a requested id that the catalog does not have adds nothing; and the
    request ["D2W1", "D1P"] against any catalog of two days yields the
    pattern of day 1 followed by the first word of day 2. *)
Theorem quiz_items_in_catalog_order :
  (forall (itemIds : list string) (plan : list Day),
      generateQuizData itemIds plan =
      filter (fun q => includes itemIds (q_id q)) (catalog_items plan)) /\
  (forall (itemIds itemIds' : list string) (plan : list Day),
      Permutation itemIds itemIds' ->
      generateQuizData itemIds plan = generateQuizData itemIds' plan) /\
  (forall (itemIds : list string) (plan : list Day) (id : string),
      ~ In id (map q_id (catalog_items plan)) ->
      generateQuizData (id :: itemIds) plan = generateQuizData itemIds plan) /\
  (forall (d1 d2 : Day) (w : Word) (ws : list Word),
      words d2 = w :: ws ->
      generateQuizData ["D2W1"; "D1P"]%string [d1; d2] =
      [ mkItem "D1P" "pattern" (pattern d1) (pattern_ko d1);
        mkItem "D2W1" "word" (w_jp w) (w_ko w) ]).
Proof.
  assert (Hfilter : forall itemIds plan,
             generateQuizData itemIds plan =
             filter (fun q => includes itemIds (q_id q)) (catalog_items plan)).
  { intros. unfold generateQuizData. rewrite plan_forEach_filter.
    reflexivity. }
  split; [exact Hfilter|]. split; [|split].
  - intros itemIds itemIds' plan HP. rewrite !Hfilter.
    apply filter_ext. intros q. apply includes_ext.
    intros x. split; apply Permutation_in; [|symmetry]; exact HP.
  - intros itemIds plan id Hid. rewrite !Hfilter.
    apply filter_ext_in. intros q Hq. unfold includes. simpl.
    destruct (String.eqb (q_id q) id) eqn:E; [|reflexivity].
    apply String.eqb_eq in E. exfalso. apply Hid. rewrite <- E.
    apply in_map. exact Hq.
  - intros d1 d2 w ws Hw. rewrite Hfilter.
    remember (fun q => includes ["D2W1"; "D1P"]%string (q_id q)) as g eqn:Eg.
    assert (H1 : forall l wi, filter g (word_items 0 l wi) = []).
    { subst g. induction l as [|x l IH]; intros wi; simpl; [reflexivity|].
      apply IH. }
    assert (H2 : forall l wi, (1 <= wi)%nat ->
                 filter g (word_items 1 l wi) = []).
    { subst g. induction l as [|x l IH]; intros wi Hwi; simpl; [reflexivity|].
      destruct (String.eqb (decimal (Z.of_nat wi + 1)) "1") eqn:E.
      - apply String.eqb_eq in E. exfalso. revert E.
        apply decimal_not_one. lia.
      - simpl. apply IH. lia. }
    assert (G1 : forall a b c, g (mkItem (pattern_id 0) a b c) = true)
      by (intros; subst g; reflexivity).
    assert (G2 : forall a b c, g (mkItem (word_id 1 0) a b c) = true)
      by (intros; subst g; reflexivity).
    assert (G3 : forall a b c, g (mkItem (pattern_id 1) a b c) = false)
      by (intros; subst g; reflexivity).
    unfold catalog_items. cbn [catalog_from]. rewrite Hw. cbn [word_items].
    rewrite filter_app, H1. cbn [app filter]. rewrite G1, G2.
    rewrite filter_app, H2 by lia. cbn [app filter]. rewrite G3.
    reflexivity.
Qed.

Lemma quiz_items_in_catalog_order_witness :
  generateQuizData ["D2W1"; "D1P"; "D7W7"]%string sample_plan =
  generateQuizData ["D7W7"; "D1P"; "D2W1"]%string sample_plan /\
  generateQuizData ["D2W1"; "D1P"]%string sample_plan =
  [ mkItem "D1P" "pattern" "これは~です" "이것은 ~입니다";
    mkItem "D2W1" "word" "水" "물" ].
Proof.
  split.
  - apply (proj1 (proj2 quiz_items_in_catalog_order)).
    change ["D7W7"; "D1P"; "D2W1"]%string
      with (rev ["D2W1"; "D1P"; "D7W7"]%string).
    apply Permutation_rev.
  - exact (proj2 (proj2 (proj2 quiz_items_in_catalog_order))
             (mkDay "これは~です" "이것은 ~입니다"
                [mkWord "本" "책"; mkWord "猫" "고양이"])
             (mkDay "~があります" "~이 있습니다"
                [mkWord "水" "물"; mkWord "犬" "개"])
             (mkWord "水" "물") [mkWord "犬" "개"] eq_refl).
Defined.

(** ** Claims about the event log *)

(** X19: whatever item is presented and whatever choice is clicked, with a
    stored log that decodes to an array, the handler writes back the old
    log followed by exactly one event holding the id and type of the item
    and the current time, with outcome ["correct"] exactly when the choice
    is the answer of the item and ["wrong"] otherwise, and moves the cursor
    one step; the question on the page is the item under the cursor. *)
Theorem select_choice_logs_one_event :
  forall (st : Storage) (log : list StudyEvent) (now : Z) (item : QuizItem)
         (opt : string) (current : nat),
    read_log st = Ok log ->
    exists o : string,
      select_choice st now item opt current =
      Ok (mkStorage
            (Some (Json (log ++ [mkEvent (q_id item) (q_type item) o now])))
            (quizItems st),
          S current) /\
      (o = "correct"%string <-> opt = q_ko item) /\
      (o = "wrong"%string <-> opt <> q_ko item) /\
      (forall fuel plan rnd shuffle items options,
          showNext fuel plan rnd shuffle true items current
          = Ok (Question item options) ->
          nth_error items current = Some item).
Proof.
  intros st log now item opt current Hlog.
  exists (if String.eqb opt (q_ko item) then "correct" else "wrong")%string.
  split; [|split; [|split]].
  - unfold select_choice, logStudy. rewrite Hlog. reflexivity.
  - destruct (String.eqb_spec opt (q_ko item)) as [E|E].
    + tauto.
    + split; [discriminate | contradiction].
  - destruct (String.eqb_spec opt (q_ko item)) as [E|E].
    + split; [discriminate | contradiction].
    + tauto.
  - intros fuel plan rnd shuffle items options H.
    unfold showNext in H.
    destruct (nth_error items current) as [it|]; [|discriminate].
    destruct (build_options fuel plan rnd (q_ko it)); simpl in H;
      try discriminate.
    injection H as H _. congruence.
Qed.

Lemma select_choice_logs_one_event_witness :
  read_log sample_storage = Ok sample_log /\
  exists o : string,
    select_choice sample_storage sample_now
      (mkItem "D2W1" "word" "水" "물") "물" 0
    = Ok (mkStorage
            (Some (Json (sample_log ++ [mkEvent "D2W1" "word" o sample_now])))
            None, 1%nat) /\
    o = "correct"%string.
Proof.
  split; [reflexivity|].
  destruct (select_choice_logs_one_event sample_storage sample_now
              (mkItem "D2W1" "word" "水" "물") "물" 0 eq_refl)
    as (o & Hsel & Hc & _).
  exists o. split; [exact Hsel|]. apply Hc. reflexivity.
Defined.

(** C5, where the code departs from it: [buildQuizPage] never reads the
    log, so it presents a question also when the stored log is a string
    that [JSON.parse] rejects.  A click on a choice then throws inside
    [logStudy], before the log is written and before [current++]: the
    answer selection appends no event, the cursor stays, and the same
    question remains on the page, whatever is clicked and however
    often. *)
Theorem select_choice_on_undecodable_log :
  let st := mkStorage (Some Malformed) (Some (Json ["D1W1"%string])) in
  let item := mkItem "D1W1" "word" "本" "책" in
  let options := ["책"; "고양이"; "물"; "개"]%string in
  buildQuizPage 4 st true (Some four_word_plan) round_robin (fun l => l)
  = Ok (Question item options) /\
  (forall (now : Z) (opt : string) (current : nat),
      logStudy st now (q_id item) (q_type item)
        (if String.eqb opt (q_ko item) then "correct" else "wrong")%string
      = Throw SyntaxError /\
      select_choice st now item opt current = Throw SyntaxError) /\
  (forall (fuel : nat) (rnds : nat -> nat -> nat * nat)
          (shuffle : list string -> list string) (items : list QuizItem)
          (clicks : list (string * Z)),
      Forall (fun c => In (fst c) options) clicks -> clicks <> [] ->
      play fuel four_word_plan rnds shuffle items
        (mkSession st 0 (Question item options)) clicks
      = Throw SyntaxError).
Proof.
  intros st item options.
  split; [vm_compute; reflexivity|].
  split; [intros now opt current; split; reflexivity|].
  intros fuel rnds shuffle items clicks Hall Hne.
  destruct clicks as [|[opt now] rest]; [congruence|].
  inversion Hall as [|c l Hopt _]; subst.
  cbn [play]. unfold click. cbn [s_view].
  apply includes_In in Hopt. cbn [fst] in Hopt. rewrite Hopt.
  reflexivity.
Qed.

Lemma select_choice_on_undecodable_log_witness :
  play 8 four_word_plan (fun _ => round_robin) (@rev string) sample_items
    (mkSession (mkStorage (Some Malformed) (Some (Json ["D1W1"%string]))) 0
       (Question (mkItem "D1W1" "word" "本" "책")
          ["책"; "고양이"; "물"; "개"]%string))
    sample_clicks
  = Throw SyntaxError.
Proof.
  apply (proj2 (proj2 select_choice_on_undecodable_log)).
  - repeat constructor; simpl; tauto.
  - discriminate.
Defined.

(** C7, where the code departs from it: [|| '[]'] makes the readers of the
    log go on with the empty list when the key is absent or holds the
    empty string, but a stored log that is a non-empty string and no JSON
    text makes each of them throw the [SyntaxError] of [JSON.parse]; none
    recovers with the empty list. *)
Lemma malformed_log_throws :
  let st := mkStorage (Some Malformed) None in
  read_log st = Throw SyntaxError /\
  getYesterdayReviewSet st sample_now default_max = Throw SyntaxError /\
  getLast7DaysReviewSet st sample_now sample_now default_max
  = Throw SyntaxError /\
  logStudy st sample_now "D1W1" "word" "view" = Throw SyntaxError /\
  getYesterdayReviewSet st sample_now default_max <> Ok [].
Proof.
  intros st. repeat split; try reflexivity. discriminate.
Qed.

(** What the readers of the log do by the kind of the stored string: a
    key that is absent or holds the empty string is read as the empty list
    by the two review-set selectors and by [logStudy] (which then stores a
    log of one event); a string that is no JSON text makes each of them
    throw a [SyntaxError], and the text of a value that is no array a
    [TypeError]. *)
Lemma undecodable_log_is_empty_or_throws :
  forall (st : Storage) (now now' : Z) (max : nat) (id ty o : string),
    (studyLog st = None \/ studyLog st = Some Empty_text ->
     read_log st = Ok [] /\
     getYesterdayReviewSet st now max = Ok [] /\
     getLast7DaysReviewSet st now now' max = Ok [] /\
     logStudy st now id ty o
     = Ok (mkStorage (Some (Json [mkEvent id ty o now])) (quizItems st))) /\
    (studyLog st = Some Malformed ->
     read_log st = Throw SyntaxError /\
     getYesterdayReviewSet st now max = Throw SyntaxError /\
     getLast7DaysReviewSet st now now' max = Throw SyntaxError /\
     logStudy st now id ty o = Throw SyntaxError) /\
    (forall j : non_array,
        studyLog st = Some (Json_other j) ->
        read_log st = Throw TypeError /\
        getYesterdayReviewSet st now max = Throw TypeError /\
        getLast7DaysReviewSet st now now' max = Throw TypeError /\
        logStudy st now id ty o = Throw TypeError).
Proof.
  intros st now now' max id ty o. split; [|split].
  - intros H.
    assert (Hlog : read_log st = Ok []).
    { unfold read_log. destruct H as [H|H]; rewrite H; reflexivity. }
    unfold getYesterdayReviewSet, getLast7DaysReviewSet, logStudy.
    rewrite Hlog. simpl.
    repeat split; destruct max; reflexivity.
  - intros H.
    assert (Hlog : read_log st = Throw SyntaxError).
    { unfold read_log. rewrite H. reflexivity. }
    unfold getYesterdayReviewSet, getLast7DaysReviewSet, logStudy.
    rewrite Hlog. repeat split.
  - intros j H.
    assert (Hlog : read_log st = Throw TypeError).
    { unfold read_log. rewrite H. reflexivity. }
    unfold getYesterdayReviewSet, getLast7DaysReviewSet, logStudy.
    rewrite Hlog. repeat split.
Qed.

(** ** Claims about the quiz hand-off and the quiz page *)

(** C10: called without a list or with the empty list, [startQuiz] leaves
    the store and the address as they were and only raises the alert;
    called with a non-empty list it stores the list and navigates. *)
Theorem startQuiz_empty_changes_nothing :
  forall b : Browser,
    startQuiz b None
    = mkBrowser (storage b) (pathname b) (navigated b)
        (alerts b ++ [NOTHING_TO_REVIEW]) /\
    startQuiz b (Some [])
    = mkBrowser (storage b) (pathname b) (navigated b)
        (alerts b ++ [NOTHING_TO_REVIEW]) /\
    (forall (id : string) (ids : list string),
        quizItems (storage (startQuiz b (Some (id :: ids))))
        = Some (Json (id :: ids)) /\
        studyLog (storage (startQuiz b (Some (id :: ids))))
        = studyLog (storage b) /\
        navigated (startQuiz b (Some (id :: ids)))
        = Some (strip_last_segment (pathname b) ++ "/quiz.html")%string /\
        alerts (startQuiz b (Some (id :: ids))) = alerts b).
Proof.
  intros b. split; [|split].
  - reflexivity.
  - reflexivity.
  - intros id ids. repeat split.
Qed.

(** C8, where the code departs from it: an empty id list shows the text
    for no items, but a non-empty list that resolves to no item, because
    the catalog could not be loaded or does not have the id, shows the text
    for a finished quiz, not the one for no items. *)
Theorem quiz_page_without_resolved_items :
  forall (fuel : nat) (rnd : nat -> nat * nat)
         (shuffle : list string -> list string),
    buildQuizPage fuel (mkStorage None (Some (Json []))) true
      (Some sample_plan) rnd shuffle = Ok NoItems /\
    generateQuizData ["D1W1"%string] [] = [] /\
    buildQuizPage fuel (mkStorage None (Some (Json ["D1W1"%string]))) true
      None rnd shuffle = Ok QuizComplete /\
    generateQuizData ["D9W9"%string] sample_plan = [] /\
    buildQuizPage fuel (mkStorage None (Some (Json ["D9W9"%string]))) true
      (Some sample_plan) rnd shuffle = Ok QuizComplete /\
    view_text QuizComplete <> view_text NoItems.
Proof.
  intros fuel rnd shuffle.
  split; [reflexivity|]. split; [reflexivity|]. split; [reflexivity|].
  split; [reflexivity|]. split; [reflexivity|].
  intros H. vm_compute in H. discriminate H.
Qed.

(** A quiz that resolves to no item never shows a question: the page
    shows one of the two messages. *)
Lemma empty_quiz_never_presents fuel st fetched rnd shuffle itemIds :
  JSON_parse (or_default (quizItems st) (Json [])) = Ok (Array itemIds) ->
  generateQuizData itemIds
    (match fetched with Some plan => plan | None => [] end) = [] ->
  buildQuizPage fuel st true fetched rnd shuffle
  = Ok (match itemIds with [] => NoItems | _ :: _ => QuizComplete end).
Proof.
  intros Hids Hnone. unfold buildQuizPage. rewrite Hids. simpl.
  destruct itemIds as [|id ids]; [reflexivity|].
  destruct fetched as [plan|]; simpl.
  - rewrite Hnone. reflexivity.
  - reflexivity.
Qed.

(** ** The answer choices *)

Section Choices.
Variable plan : list Day.
Variable answer : string.

Lemma choice_loop_done fuel rnd k options :
  (4 <= List.length options)%nat ->
  choice_loop fuel plan rnd k options = Ok options.
Proof.
  intros H. destruct fuel; simpl;
    replace (List.length options <? 4)%nat with false
      by (symmetry; apply Nat.ltb_ge; exact H); reflexivity.
Qed.

Lemma choice_loop_S fuel rnd k options :
  (List.length options < 4)%nat ->
  choice_loop (S fuel) plan rnd k options =
  match nth_error plan (pick (fst (rnd k)) (List.length plan)) with
  | None => Throw TypeError
  | Some rd =>
      match nth_error (words rd)
              (pick (snd (rnd k)) (List.length (words rd))) with
      | None => Throw TypeError
      | Some w =>
          choice_loop fuel plan rnd (S k)
            (if includes options (w_ko w) then options
             else options ++ [w_ko w])
      end
  end.
Proof.
  intros H. simpl.
  replace (List.length options <? 4)%nat with true
    by (symmetry; apply Nat.ltb_lt; exact H).
  reflexivity.
Qed.

Lemma word_kos_In d w : In d plan -> In w (words d) -> In (w_ko w) (word_kos plan).
Proof.
  intros Hd Hw. unfold word_kos. apply in_flat_map.
  exists d. split; [exact Hd|]. apply in_map. exact Hw.
Qed.

Lemma choices_ok_push options d w :
  choices_ok plan answer options -> In d plan -> In w (words d) ->
  includes options (w_ko w) = false ->
  choices_ok plan answer (options ++ [w_ko w]).
Proof.
  intros (Hnd & others & E & Hincl) Hd Hw Hnew. split.
  - eapply Permutation_NoDup; [apply Permutation_cons_append|].
    constructor; [|exact Hnd].
    intros Hin. apply includes_In in Hin. congruence.
  - exists (others ++ [w_ko w]). split.
    + rewrite E. reflexivity.
    + intros x Hx. apply in_app_or in Hx. destruct Hx as [Hx|[<-|[]]].
      * apply Hincl. exact Hx.
      * eapply word_kos_In; eassumption.
Qed.

(** Partial correctness of the loop. *)
Lemma choice_loop_result fuel rnd : forall k options opts,
  choices_ok plan answer options -> (List.length options <= 4)%nat ->
  choice_loop fuel plan rnd k options = Ok opts ->
  choices_ok plan answer opts /\ List.length opts = 4%nat.
Proof.
  induction fuel as [|fuel IH]; intros k options opts Hok Hlen Hrun.
  - simpl in Hrun.
    destruct (Nat.ltb_spec (List.length options) 4); [discriminate|].
    injection Hrun as <-. split; [exact Hok | lia].
  - destruct (Nat.ltb_spec (List.length options) 4) as [Hlt|Hge].
    + rewrite (choice_loop_S _ _ _ _ Hlt) in Hrun.
      destruct (nth_error plan _) as [rd|] eqn:Erd; [|discriminate].
      destruct (nth_error (words rd) _) as [w|] eqn:Ew; [|discriminate].
      apply nth_error_In in Erd, Ew.
      destruct (includes options (w_ko w)) eqn:Einc.
      * eapply IH; eassumption.
      * eapply IH; [| |exact Hrun].
        -- eapply choices_ok_push; eassumption.
        -- rewrite length_app. simpl. lia.
    + rewrite (choice_loop_done _ _ _ _ Hge) in Hrun.
      injection Hrun as <-. split; [exact Hok | lia].
Qed.

Lemma distractors_In x :
  In x (distractors plan answer) <-> In x (word_kos plan) /\ x <> answer.
Proof.
  unfold distractors. rewrite nodup_In. split.
  - intros H. apply in_remove in H. exact H.
  - intros [H1 H2]. apply in_in_remove; assumption.
Qed.

(** What a finished run returns. *)
Lemma build_options_result fuel rnd opts :
  build_options fuel plan rnd answer = Ok opts ->
  List.length opts = 4%nat /\ NoDup opts /\
  hd_error opts = Some answer /\
  incl (tl opts) (distractors plan answer).
Proof.
  intros Hrun. unfold build_options in Hrun.
  apply choice_loop_result in Hrun.
  - destruct Hrun as ((Hnd & others & E & Hincl) & Hlen).
    subst opts. repeat split; trivial.
    simpl. intros x Hx. apply distractors_In. split; [auto|].
    inversion Hnd as [|? ? Hn _]; subst. congruence.
  - split.
    + constructor; [intros [] | constructor].
    + exists []. split; [reflexivity | intros x []].
  - simpl. lia.
Qed.

(** With fewer than three distractors no run returns. *)
Lemma build_options_too_few fuel rnd opts :
  (List.length (distractors plan answer) < 3)%nat ->
  build_options fuel plan rnd answer <> Ok opts.
Proof.
  intros Hfew Hrun.
  destruct (build_options_result _ _ Hrun) as (Hlen & Hnd & Hhd & Hincl).
  destruct opts as [|a others]; [discriminate|].
  simpl in *. inversion Hnd as [|? ? _ Hnd']; subst.
  pose proof (NoDup_incl_length Hnd' Hincl). lia.
Qed.
End Choices.

(** ** Termination of the choice loop *)

Lemma forallb_false_witness (A : Type) (f : A -> bool) (l : list A) :
  forallb f l = false -> exists x, In x l /\ f x = false.
Proof.
  induction l as [|a l IH]; simpl; [discriminate|].
  destruct (f a) eqn:E; simpl.
  - intros H. destruct (IH H) as (x & Hx & Hf). exists x. auto.
  - intros _. exists a. auto.
Qed.

(** A list without repetition that is longer than another has an element
    the other lacks. *)
Lemma fresh_element (l l' : list string) :
  NoDup l -> (List.length l' < List.length l)%nat ->
  exists x, In x l /\ ~ In x l'.
Proof.
  intros Hnd Hlen.
  destruct (forallb (includes l') l) eqn:E.
  - exfalso. rewrite forallb_forall in E.
    assert (Hincl : incl l l').
    { intros x Hx. apply includes_In, E, Hx. }
    pose proof (NoDup_incl_length Hnd Hincl). lia.
  - destruct (forallb_false_witness _ _ E) as (x & Hx & Hf).
    exists x. split; [exact Hx|]. intros Hin.
    apply includes_In in Hin. congruence.
Qed.

Lemma pick_lt r n : (0 < n)%nat -> (pick r n < n)%nat.
Proof.
  intros H. destruct n as [|n]; [lia|].
  change (pick r (S n)) with (r mod S n)%nat.
  apply Nat.mod_upper_bound. lia.
Qed.

Section Termination.
Variable plan : list Day.
Variable answer : string.
Variable rnd : nat -> nat * nat.
Hypothesis days_have_words : Forall (fun d => words d <> []) plan.
Hypothesis plan_not_empty : plan <> [].

(** Each pass draws a word: the loop does not throw. *)
Lemma pass_draws_word k :
  exists rd w,
    nth_error plan (pick (fst (rnd k)) (List.length plan)) = Some rd /\
    nth_error (words rd) (pick (snd (rnd k)) (List.length (words rd)))
    = Some w.
Proof.
  assert (Hp : (0 < List.length plan)%nat).
  { destruct plan; [congruence | simpl; lia]. }
  destruct (nth_error plan (pick (fst (rnd k)) (List.length plan)))
    as [rd|] eqn:Erd.
  - assert (Hw : (0 < List.length (words rd))%nat).
    { rewrite Forall_forall in days_have_words.
      pose proof (days_have_words rd (nth_error_In _ _ Erd)).
      destruct (words rd); [congruence | simpl; lia]. }
    destruct (nth_error (words rd)
                (pick (snd (rnd k)) (List.length (words rd))))
      as [w|] eqn:Ew.
    + exists rd, w. auto.
    + apply nth_error_None in Ew.
      pose proof (pick_lt (snd (rnd k)) Hw). lia.
  - apply nth_error_None in Erd.
    pose proof (pick_lt (fst (rnd k)) Hp). lia.
Qed.

(** If the pass [k + d] draws a string that [options] lacks, then some
    pass up to it makes [options] one longer. *)
Lemma choice_loop_progress (x : string) : forall d k options,
  choices_ok plan answer options ->
  (List.length options < 4)%nat ->
  ~ In x options ->
  (exists rd w,
      nth_error plan (pick (fst (rnd (k + d))) (List.length plan))
      = Some rd /\
      nth_error (words rd)
        (pick (snd (rnd (k + d))) (List.length (words rd))) = Some w /\
      w_ko w = x) ->
  exists n k' options',
    choices_ok plan answer options' /\
    List.length options' = S (List.length options) /\
    forall fuel,
      choice_loop (n + fuel) plan rnd k options
      = choice_loop fuel plan rnd k' options'.
Proof.
  induction d as [|d IH]; intros k options Hok Hlen Hx Hdraw.
  - destruct Hdraw as (rd & w & Erd & Ew & Ex).
    rewrite Nat.add_0_r in Erd, Ew.
    exists 1%nat, (S k), (options ++ [w_ko w]).
    assert (Hnew : includes options (w_ko w) = false).
    { destruct (includes options (w_ko w)) eqn:E; [|reflexivity].
      apply includes_In in E. congruence. }
    split; [|split].
    + eapply choices_ok_push; try eassumption.
      * eapply nth_error_In; eassumption.
      * eapply nth_error_In; eassumption.
    + rewrite length_app. simpl. lia.
    + intros fuel. simpl Nat.add.
      rewrite (choice_loop_S _ _ _ _ _ Hlen), Erd, Ew, Hnew. reflexivity.
  - destruct (pass_draws_word k) as (rd & w & Erd & Ew).
    destruct (includes options (w_ko w)) eqn:Einc.
    + destruct (IH (S k) options Hok Hlen Hx) as (n & k' & options' & H).
      { replace (S k + d)%nat with (k + S d)%nat by lia. exact Hdraw. }
      exists (S n), k', options'.
      destruct H as (H1 & H2 & H3). split; [exact H1|]. split; [exact H2|].
      intros fuel. simpl Nat.add.
      rewrite (choice_loop_S _ _ _ _ _ Hlen), Erd, Ew, Einc. apply H3.
    + exists 1%nat, (S k), (options ++ [w_ko w]).
      split; [|split].
      * eapply choices_ok_push; try eassumption.
        -- eapply nth_error_In; eassumption.
        -- eapply nth_error_In; eassumption.
      * rewrite length_app. simpl. lia.
      * intros fuel. simpl Nat.add.
        rewrite (choice_loop_S _ _ _ _ _ Hlen), Erd, Ew, Einc. reflexivity.
Qed.

Hypothesis enough : (3 <= List.length (distractors plan answer))%nat.
Hypothesis rnd_exhaustive : exhaustive plan rnd.

Lemma word_kos_drawn x k :
  In x (word_kos plan) ->
  exists d rd w,
    nth_error plan (pick (fst (rnd (k + d))) (List.length plan)) = Some rd /\
    nth_error (words rd)
      (pick (snd (rnd (k + d))) (List.length (words rd))) = Some w /\
    w_ko w = x.
Proof.
  intros Hx. unfold word_kos in Hx. apply in_flat_map in Hx.
  destruct Hx as (rd & Hrd & Hx). apply in_map_iff in Hx.
  destruct Hx as (w & Ew & Hw).
  apply In_nth_error in Hrd. destruct Hrd as (di & Hdi).
  apply In_nth_error in Hw. destruct Hw as (wi & Hwi).
  assert (Hlt : (wi < List.length (words rd))%nat).
  { apply nth_error_Some. congruence. }
  pose proof rnd_exhaustive as Hex. unfold exhaustive in Hex.
  destruct (Hex k di wi rd Hdi Hlt) as (j & Hj & Hd & Hwd).
  exists (j - k)%nat, rd, w.
  replace (k + (j - k))%nat with j by lia.
  rewrite Hd, Hdi, Hwd, Hwi. auto.
Qed.

(** With enough fuel the loop returns, from any pass and any state the
    invariant allows. *)
Lemma choice_loop_terminates : forall m k options,
  choices_ok plan answer options ->
  (List.length options + m = 4)%nat ->
  exists fuel opts, choice_loop fuel plan rnd k options = Ok opts.
Proof.
  induction m as [|m IH]; intros k options Hok Hlen.
  - exists 0%nat, options. apply choice_loop_done. lia.
  - destruct Hok as (Hnd & others & E & Hincl).
    assert (Hfresh : exists x, In x (distractors plan answer)
                               /\ ~ In x others).
    { apply fresh_element.
      - apply NoDup_nodup.
      - subst options. simpl in Hlen. lia. }
    destruct Hfresh as (x & Hx & Hnew).
    apply distractors_In in Hx. destruct Hx as (Hx & Hxa).
    destruct (word_kos_drawn x k Hx) as (d & Hdraw).
    destruct (@choice_loop_progress x d k options) as
      (n & k' & options' & Hok' & Hlen' & Hrun).
    + split; [exact Hnd|]. exists others. auto.
    + lia.
    + subst options. intros [H|H]; [congruence | contradiction].
    + exact Hdraw.
    + destruct (IH k' options' Hok') as (fuel & opts & Hres); [lia|].
      exists (n + fuel)%nat, opts. rewrite Hrun. exact Hres.
Qed.

Lemma build_options_terminates :
  exists fuel opts, build_options fuel plan rnd answer = Ok opts.
Proof.
  unfold build_options. apply (@choice_loop_terminates 3%nat).
  - split.
    + constructor; [intros [] | constructor].
    + exists []. split; [reflexivity | intros x []].
  - reflexivity.
Qed.
End Termination.

(** When every day has a word the loop never throws. *)
Lemma choice_loop_no_throw plan rnd :
  Forall (fun d => words d <> []) plan -> plan <> [] ->
  forall fuel k options e, choice_loop fuel plan rnd k options <> Throw e.
Proof.
  intros Hw Hp. induction fuel as [|fuel IH]; intros k options e.
  - simpl. destruct (List.length options <? 4)%nat; discriminate.
  - destruct (Nat.ltb_spec (List.length options) 4) as [Hlt|Hge].
    + rewrite (choice_loop_S _ _ _ _ _ Hlt).
      destruct (pass_draws_word rnd Hw Hp k) as (rd & w & Erd & Ew).
      rewrite Erd, Ew. apply IH.
    + rewrite (choice_loop_done _ _ _ _ _ Hge). discriminate.
Qed.

Lemma distractors_of_four plan answer :
  (4 <= List.length (nodup string_dec (word_kos plan)))%nat ->
  (3 <= List.length (distractors plan answer))%nat.
Proof.
  intros H.
  assert (Hincl : incl (nodup string_dec (word_kos plan))
                    (answer :: distractors plan answer)).
  { intros x Hx. apply nodup_In in Hx.
    destruct (string_dec x answer) as [->|Hne]; [left; reflexivity|].
    right. apply distractors_In. auto. }
  pose proof (NoDup_incl_length (NoDup_nodup string_dec _) Hincl) as Hl.
  simpl in Hl. lia.
Qed.

(** ** Claims about the answer choices *)



Lemma round_robin_exhaustive : exhaustive four_word_plan round_robin.
Proof.
  intros k di wi d Hd Hwi.
  destruct di as [|di]; [|destruct di; discriminate].
  injection Hd as <-. simpl in Hwi.
  exists (wi + k * 4)%nat. split; [lia|]. split; [reflexivity|].
  unfold round_robin. simpl snd.
  change (List.length (words _)) with 4%nat.
  change (pick (wi + k * 4) 4) with ((wi + k * 4) mod 4)%nat.
  rewrite Nat.Div0.mod_add. apply Nat.mod_small. exact Hwi.
Qed.


(** * Further properties of the code *)

(** ** The ranker on arbitrary events *)

Lemma upsert_In (A : Type) (k k0 : string) (v v0 : A) (l : list (string * A)) :
  In (k, v) (upsert k0 v0 l) -> (k = k0 /\ v = v0) \/ In (k, v) l.
Proof.
  induction l as [|[k1 v1] l IH]; simpl.
  - intros [H|[]]. injection H as <- <-. auto.
  - destruct (String.eqb k0 k1); simpl.
    + intros [H|H]; [injection H as <- <-; auto | auto].
    + intros [H|H]; [auto | destruct (IH H); auto].
Qed.

(** Whatever the events are, the own properties of the accumulator have
    distinct names, each holds a record carrying its own name, and the
    names are the item ids seen, except [__proto__]. *)
Lemma accumulate_keys events :
  NoDup (keys (own (accumulate events))) /\
  (forall k r, In (k, r) (own (accumulate events)) -> r_itemId r = k) /\
  (forall k, In k (keys (own (accumulate events))) <->
             In k (map itemId events) /\ k <> "__proto__"%string).
Proof.
  induction events as [|e events IH] using rev_ind.
  - simpl. split; [constructor|]. split; [intros k r []|].
    intros k. simpl. tauto.
  - destruct IH as (Hnd & Hid & Hkeys).
    rewrite accumulate_snoc. unfold rank_step, assign.
    rewrite map_app. simpl map.
    destruct (String.eqb_spec (itemId e) "__proto__") as [E|E]; simpl.
    + split; [exact Hnd|]. split; [exact Hid|].
      intros k. rewrite Hkeys, in_app_iff. simpl. split.
      * tauto.
      * intros [[H|[H|[]]] Hk]; [tauto | congruence].
    + split; [apply keys_upsert_NoDup; exact Hnd|]. split.
      * intros k r H. apply upsert_In in H.
        destruct H as [[-> ->]|H]; [reflexivity | apply Hid; exact H].
      * intros k. rewrite keys_upsert_In, Hkeys, in_app_iff. simpl. split.
        -- intros [->|[H1 H2]]; auto.
        -- intros [[H|[H|[]]] Hk]; auto.
Qed.

Lemma rank_ids_keys events :
  Permutation (_rankEvents events) (keys (own (accumulate events))).
Proof.
  unfold _rankEvents.
  rewrite (Permutation_map r_itemId (rankedItems_Permutation events)).
  rewrite map_map. unfold keys.
  erewrite map_ext_in; [reflexivity|].
  intros [k r] Hin. simpl. apply (accumulate_keys events). exact Hin.
Qed.

Lemma rank_ids_NoDup events : NoDup (_rankEvents events).
Proof.
  eapply Permutation_NoDup.
  - symmetry. apply rank_ids_keys.
  - apply accumulate_keys.
Qed.

Lemma rank_ids_mem events id :
  In id (_rankEvents events) <->
  In id (map itemId events) /\ id <> "__proto__"%string.
Proof.
  rewrite <- (proj2 (proj2 (accumulate_keys events)) id).
  split; apply Permutation_in;
    [apply rank_ids_keys | symmetry; apply rank_ids_keys].
Qed.

(** X1: for every list of events, well formed or not, the ranking lists
    each item id at most once, lists exactly the item ids that occur in
    the events except the id [__proto__] (which never becomes a property
    of the accumulator), and so is never longer than the event list. *)
Theorem rank_lists_each_item_once :
  forall events : list StudyEvent,
    NoDup (_rankEvents events) /\
    (forall id, In id (_rankEvents events) <->
                In id (map itemId events) /\ id <> "__proto__"%string) /\
    (List.length (_rankEvents events) <= List.length events)%nat.
Proof.
  intros events.
  destruct (accumulate_keys events) as (Hnd & _ & Hkeys).
  pose proof (rank_ids_keys events) as HP.
  assert (Hnd' : NoDup (_rankEvents events)).
  { eapply Permutation_NoDup; [symmetry; exact HP | exact Hnd]. }
  assert (Hmem : forall id, In id (_rankEvents events) <->
                   In id (map itemId events) /\ id <> "__proto__"%string).
  { intros id. rewrite <- Hkeys. split; apply Permutation_in;
      [exact HP | symmetry; exact HP]. }
  split; [exact Hnd'|]. split; [exact Hmem|].
  rewrite <- (length_map itemId events).
  apply NoDup_incl_length; [exact Hnd'|].
  intros id H. apply Hmem in H. tauto.
Qed.

(** In a sorted list an element that must not follow another stands in
    front of it. *)
Lemma sorted_places_first (A : Type) (R : A -> A -> Prop) (l : list A) :
  StronglySorted R l ->
  forall x y, In x l -> In y l -> ~ R y x -> x <> y ->
  exists l1 l2 l3, l = l1 ++ x :: l2 ++ y :: l3.
Proof.
  induction 1 as [|a l Hs IH Ha]; intros x y Hx Hy Hnot Hne.
  - destruct Hx.
  - rewrite Forall_forall in Ha.
    destruct Hx as [->|Hx].
    + destruct Hy as [Hy|Hy]; [congruence|].
      apply in_split in Hy. destruct Hy as (l2 & l3 & ->).
      exists [], l2, l3. reflexivity.
    + destruct Hy as [->|Hy].
      * exfalso. apply Hnot. apply Ha. exact Hx.
      * destruct (IH x y Hx Hy Hnot Hne) as (l1 & l2 & l3 & ->).
        exists (a :: l1), l2, l3. reflexivity.
Qed.

Lemma bestZ_wrong id events :
  (exists e, In e events /\ itemId e = id /\ outcome e = "wrong"%string) ->
  bestZ id events = 3.
Proof.
  intros (e & He & Hid & Ho). unfold bestZ.
  assert (Hin : In 3 (map (fun e0 => weight (outcome e0)) (events_of id events))).
  { apply in_map_iff. exists e. split; [rewrite Ho; reflexivity|].
    apply filter_In. split; [exact He|]. apply String.eqb_eq. exact Hid. }
  assert (Hle : forall l, Forall (fun x => x <= 3) l ->
                          fold_right Z.max 0 l <= 3).
  { induction 1; simpl; lia. }
  assert (Hge : forall l, In 3 l -> 3 <= fold_right Z.max 0 l).
  { induction l as [|a l IH]; simpl; [tauto|].
    intros [->|H]; [lia | specialize (IH H); lia]. }
  apply Z.le_antisymm; [|apply Hge; exact Hin].
  apply Hle. apply Forall_map, Forall_forall. intros x _.
  apply weight_range.
Qed.

Lemma bestZ_never_wrong id events :
  (forall e, In e events -> itemId e = id -> outcome e <> "wrong"%string) ->
  bestZ id events <= 2.
Proof.
  intros H. unfold bestZ, events_of.
  induction events as [|e events IH]; simpl; [lia|].
  destruct (String.eqb_spec (itemId e) id) as [E|E]; simpl.
  - assert (Hw : weight (outcome e) <= 2).
    { unfold weight.
      destruct (String.eqb_spec (outcome e) "wrong") as [Ew|Ew].
      - exfalso. apply (H e); simpl; auto.
      - destruct (String.eqb (outcome e) "correct"); [lia|].
        destruct (String.eqb (outcome e) "view"); lia. }
    assert (IH' : fold_right Z.max 0
                    (map (fun e0 => weight (outcome e0))
                       (filter (fun e0 => String.eqb (itemId e0) id) events))
                  <= 2).
    { apply IH. intros e' He'. apply H. right. exact He'. }
    lia.
  - apply IH. intros e' He'. apply H. right. exact He'.
Qed.

(** X2: among well-formed events, an item that was answered wrong at
    least once is listed in front of every item that never was. *)
Theorem rank_wrong_items_first :
  forall (events : list StudyEvent) (a b : string),
    Forall plain_event events ->
    (exists e, In e events /\ itemId e = a /\ outcome e = "wrong"%string) ->
    In b (map itemId events) ->
    (forall e, In e events -> itemId e = b -> outcome e <> "wrong"%string) ->
    exists l1 l2 l3, _rankEvents events = l1 ++ a :: l2 ++ b :: l3.
Proof.
  intros events a b Hwf Ha Hb Hnb.
  assert (Hain : In a (_rankEvents events)).
  { apply rank_ids_seen; [exact Hwf|].
    destruct Ha as (e & He & <- & _). apply in_map. exact He. }
  assert (Hbin : In b (_rankEvents events)).
  { apply rank_ids_seen; assumption. }
  unfold _rankEvents in Hain, Hbin.
  apply in_map_iff in Hain, Hbin.
  destruct Hain as (ra & Era & Hra). destruct Hbin as (rb & Erb & Hrb).
  destruct (rankedItems_In _ Hwf Hra) as (_ & Bra & Tra).
  destruct (rankedItems_In _ Hwf Hrb) as (_ & Brb & Trb).
  rewrite Era in Bra. rewrite Erb in Brb.
  rewrite (bestZ_wrong _ Ha) in Bra.
  pose proof (@bestZ_never_wrong b events Hnb) as Hb2.
  destruct (@sorted_places_first _ _ _ (rankedItems_sorted Hwf) ra rb Hra Hrb)
    as (l1 & l2 & l3 & E).
  - unfold before. rewrite Bra, Brb, Tra, Trb. lia.
  - intros ->. rewrite Bra in Brb. injection Brb as Hb3. lia.
  - exists (map r_itemId l1), (map r_itemId l2), (map r_itemId l3).
    unfold _rankEvents. rewrite E, map_app. simpl. rewrite map_app. simpl.
    rewrite Era, Erb. reflexivity.
Qed.

Lemma rank_wrong_items_first_witness :
  exists l1 l2 l3,
    _rankEvents sample_log = l1 ++ "D1W1"%string :: l2 ++ "D2P"%string :: l3.
Proof.
  apply rank_wrong_items_first.
  - unfold sample_log. plain_events.
  - exists (mkEvent "D1W1" "word" "wrong" 1736434800000).
    split; [left; reflexivity | split; reflexivity].
  - right. right. left. reflexivity.
  - intros e [<-|[<-|[<-|[]]]]; simpl; discriminate.
Defined.

Lemma upsert_same (A : Type) (k : string) (v : A) (l : list (string * A)) :
  assoc k l = Some v -> upsert k v l = l.
Proof.
  induction l as [|[k1 v1] l IH]; simpl; [discriminate|].
  destruct (String.eqb_spec k k1) as [->|E].
  - intros H. injection H as ->. reflexivity.
  - intros H. rewrite (IH H). reflexivity.
Qed.

Lemma fold_max_ge l x : In x l -> x <= fold_right Z.max 0 l.
Proof.
  induction l as [|a l IH]; simpl; [tauto|].
  intros [->|H]; [lia | specialize (IH H); lia].
Qed.

(** An event that is already among the accumulated ones changes
    nothing. *)
Lemma rank_step_absorbed events e :
  Forall plain_event events -> In e events ->
  rank_step (accumulate events) e = accumulate events.
Proof.
  intros Hwf He.
  destruct (accumulate_spec Hwf) as (Hp & _ & Hassoc).
  assert (Hpe : plain_event e) by (rewrite Forall_forall in Hwf; auto).
  destruct Hpe as (Hid & Ho & _).
  assert (Hs : seen (itemId e) events = true).
  { apply seen_In. apply in_map. exact He. }
  assert (Hine : In e (events_of (itemId e) events)).
  { apply filter_In. split; [exact He | apply String.eqb_refl]. }
  assert (Hb : weight (outcome e) <= bestZ (itemId e) events).
  { apply fold_max_ge. apply (in_map (fun e0 => weight (outcome e0))).
    exact Hine. }
  assert (Ht : ts e <= lastZ (itemId e) events).
  { apply fold_max_ge. apply (in_map ts). exact Hine. }
  assert (Hnp : String.eqb (itemId e) "__proto__" = false).
  { destruct (String.eqb_spec (itemId e) "__proto__") as [E|E];
      [|reflexivity]. rewrite E in Hid. discriminate. }
  unfold rank_step, assign, prev_of.
  rewrite Hnp, Hassoc, Hs, (score_of_weight _ Ho). simpl.
  rewrite !Z.max_l by assumption.
  rewrite upsert_same by (rewrite Hassoc, Hs; reflexivity).
  destruct (accumulate events); reflexivity.
Qed.

(** X3: events that repeat events of a well-formed log leave the ranking
    exactly as it is: logging a duplicate changes neither the records nor
    their order. *)
Theorem rank_ignores_repeated_events :
  forall events extra : list StudyEvent,
    Forall plain_event events ->
    incl extra events ->
    _rankEvents (events ++ extra) = _rankEvents events.
Proof.
  intros events extra Hwf Hincl.
  assert (H : accumulate (events ++ extra) = accumulate events).
  { unfold accumulate at 1. rewrite fold_left_app.
    fold (accumulate events).
    induction extra as [|e extra IH]; simpl; [reflexivity|].
    rewrite rank_step_absorbed.
    - apply IH. intros x Hx. apply Hincl. right. exact Hx.
    - exact Hwf.
    - apply Hincl. left. reflexivity. }
  unfold _rankEvents, rankedItems. rewrite H. reflexivity.
Qed.

Lemma rank_ignores_repeated_events_witness :
  _rankEvents (sample_log ++ [mkEvent "D1W2" "word" "view" 1736521200000])
  = _rankEvents sample_log.
Proof.
  apply rank_ignores_repeated_events.
  - unfold sample_log. plain_events.
  - intros x [<-|[]]. right. left. reflexivity.
Defined.

(** ** Dates and review sets *)

(** X4: for two instants in the domain of the formatter model, [_kstYMD]
    prints ten characters, prints the same text exactly when the instants
    fall on the same Asia/Seoul day, and the texts compare (as strings, by
    [<] and [<=]) exactly as the days do: comparing the printed dates is
    comparing the days. *)
Theorem kstYMD_orders_like_days :
  forall t t' : Z,
    kst_ok t -> kst_ok t' ->
    String.length (_kstYMD t) = 10%nat /\
    (_kstYMD t = _kstYMD t' <-> kst_day t = kst_day t') /\
    (String.ltb (_kstYMD t) (_kstYMD t') = true <-> kst_day t < kst_day t') /\
    (String.leb (_kstYMD t) (_kstYMD t') = true <-> kst_day t <= kst_day t').
Proof.
  intros t t' H H'. split; [|split; [|split]].
  - unfold _kstYMD.
    rewrite (format_en_CA_four_digit_year _ (kst_ok_year H)). reflexivity.
  - rewrite <- String.eqb_eq, (kstYMD_eqb H H'). apply Z.eqb_eq.
  - unfold String.ltb. rewrite (kstYMD_compare H H').
    rewrite <- Z.compare_lt_iff.
    destruct (kst_day t ?= kst_day t'); split; congruence.
  - rewrite (kstYMD_leb H H'). apply Z.leb_le.
Qed.

Lemma kstYMD_orders_like_days_witness :
  kst_ok 1736434800000 /\ kst_ok 1736521199999 /\
  String.length (_kstYMD 1736434800000) = 10%nat /\
  _kstYMD 1736434800000 = _kstYMD 1736521199999.
Proof.
  assert (H : kst_ok 1736434800000)
    by (split; vm_compute; discriminate).
  assert (H' : kst_ok 1736521199999)
    by (split; vm_compute; discriminate).
  split; [exact H|]. split; [exact H'|].
  destruct (kstYMD_orders_like_days H H') as (Hlen & Heq & _).
  split; [exact Hlen|]. apply Heq. vm_compute. reflexivity.
Defined.

Lemma Z_iter_succ (A : Type) (f : A -> A) (x : A) (n : Z) :
  0 <= n -> Z.iter (Z.succ n) f x = f (Z.iter n f x).
Proof.
  intros H. destruct n as [|p|p]; [reflexivity | | lia].
  simpl. rewrite Pos.add_1_r. apply Pos.iter_succ.
Qed.

Lemma civil_of_days_add m n :
  0 <= m -> 0 <= n ->
  civil_of_days (m + n) = Z.iter n next_day (civil_of_days m).
Proof.
  intros Hm Hn. revert n Hn. apply natlike_ind.
  - rewrite Z.add_0_r. reflexivity.
  - intros n Hn IH. rewrite Z.add_succ_r, Z_iter_succ by exact Hn.
    rewrite civil_of_days_succ by lia. rewrite IH. reflexivity.
Qed.

(** X5: when [now] and the instant [n] days before it both lie in the
    domain of the formatter model, [_daysAgo(n)] is the instant exactly [n]
    Asia/Seoul calendar days before [now], at the same time of day: its
    day number is [n] less, the time elapsed since midnight is the same,
    stepping [n] days forward from its date gives the date of [now], and
    its printed date is no later than that of [now], the same only for
    [n = 0]; [_daysAgo(0)] is [now], and two steps back add up. *)
Theorem daysAgo_is_calendar_days :
  forall now n : Z,
    0 <= n -> kst_ok now -> kst_ok (_daysAgo now n) ->
    kst_day (_daysAgo now n) = kst_day now - n /\
    (_daysAgo now n + KST_OFFSET) mod MS_PER_DAY
    = (now + KST_OFFSET) mod MS_PER_DAY /\
    civil_of_days (kst_day now)
    = Z.iter n next_day (civil_of_days (kst_day (_daysAgo now n))) /\
    (_kstYMD (_daysAgo now n) = _kstYMD now <-> n = 0) /\
    String.leb (_kstYMD (_daysAgo now n)) (_kstYMD now) = true /\
    _daysAgo now 0 = now /\
    (forall k, 0 <= k -> kst_ok (_daysAgo now (n + k)) ->
               _daysAgo (_daysAgo now n) k = _daysAgo now (n + k)).
Proof.
  intros now n Hn Hnow Hago.
  pose proof (kst_ok_day Hago) as Hd.
  split; [apply kst_day_daysAgo|].
  split.
  { unfold _daysAgo, MS_PER_DAY, KST_OFFSET.
    replace (now - n * 24 * 60 * 60 * 1000 + 9 * 60 * 60 * 1000)
      with (now + 9 * 60 * 60 * 1000 + (- n) * (24 * 60 * 60 * 1000)) by lia.
    apply Z.mod_add. lia. }
  split.
  { rewrite <- civil_of_days_add by lia.
    rewrite kst_day_daysAgo. f_equal. lia. }
  split.
  { rewrite <- String.eqb_eq, (kstYMD_eqb Hago Hnow), kst_day_daysAgo.
    rewrite Z.eqb_eq. lia. }
  split.
  { rewrite (kstYMD_leb Hago Hnow), kst_day_daysAgo. apply Z.leb_le. lia. }
  split; [unfold _daysAgo; lia|].
  intros k _ _. unfold _daysAgo. lia.
Qed.

Lemma daysAgo_is_calendar_days_witness :
  kst_ok sample_now /\ kst_ok (_daysAgo sample_now 7) /\
  kst_day (_daysAgo sample_now 7) = kst_day sample_now - 7 /\
  civil_of_days (kst_day sample_now)
  = Z.iter 7 next_day (civil_of_days (kst_day (_daysAgo sample_now 7))).
Proof.
  assert (H7 : 0 <= 7) by lia.
  assert (Hnow : kst_ok sample_now) by (split; vm_compute; discriminate).
  assert (Hago : kst_ok (_daysAgo sample_now 7))
    by (split; vm_compute; discriminate).
  split; [exact Hnow|]. split; [exact Hago|].
  destruct (@daysAgo_is_calendar_days sample_now 7 H7 Hnow Hago)
    as (H1 & _ & H3 & _).
  split; [exact H1 | exact H3].
Defined.

(** X6: every event that counts for yesterday also counts for the last
    seven days, when the two ends of the window are instants the formatter
    model covers. *)
Theorem yesterday_events_in_last7 :
  forall (now : Z) (log : list StudyEvent) (e : StudyEvent),
    kst_ok (_daysAgo now 7) -> kst_ok (_daysAgo now 1) ->
    In e (yesterday_events now log) -> In e (last7_events now now log).
Proof.
  intros now log e H7 H1 He.
  unfold yesterday_events in He. unfold last7_events.
  apply filter_In in He. destruct He as (Hin & E).
  apply filter_In. split; [exact Hin|].
  apply String.eqb_eq in E. rewrite E.
  apply andb_true_iff. split.
  - rewrite (kstYMD_leb H7 H1), !kst_day_daysAgo. apply Z.leb_le. lia.
  - unfold String.leb. rewrite string_compare_refl. reflexivity.
Qed.

Lemma yesterday_events_in_last7_witness :
  In (mkEvent "D1W1" "word" "wrong" 1736434800000)
    (last7_events sample_now sample_now sample_log).
Proof.
  apply yesterday_events_in_last7.
  - split; vm_compute; discriminate.
  - split; vm_compute; discriminate.
  - vm_compute. left. reflexivity.
Defined.

Lemma firstn_NoDup (A : Type) (n : nat) (l : list A) :
  NoDup l -> NoDup (firstn n l).
Proof.
  intros H. rewrite <- (firstn_skipn n l) in H.
  apply NoDup_app_remove_r in H. exact H.
Qed.

Lemma firstn_In (A : Type) (n : nat) (l : list A) (x : A) :
  In x (firstn n l) -> In x l.
Proof.
  intros H. rewrite <- (firstn_skipn n l). apply in_or_app. left. exact H.
Qed.

(** X7: whatever the stored events are, a review set that is returned
    lists no item twice, lists at most [max] items, and lists only items
    that have an event in its window: an event printed with yesterday's
    date for [getYesterdayReviewSet], an event whose printed date lies
    between the two ends for [getLast7DaysReviewSet]. *)
Theorem review_sets_list_window_items :
  (forall (st : Storage) (now : Z) (max : nat) (ids : list string),
      getYesterdayReviewSet st now max = Ok ids ->
      exists log,
        read_log st = Ok log /\
        NoDup ids /\ (List.length ids <= max)%nat /\
        forall id, In id ids ->
          exists e, In e log /\ itemId e = id /\
                    _kstYMD (ts e) = _kstYMD (_daysAgo now 1)) /\
  (forall (st : Storage) (now7 now1 : Z) (max : nat) (ids : list string),
      getLast7DaysReviewSet st now7 now1 max = Ok ids ->
      exists log,
        read_log st = Ok log /\
        NoDup ids /\ (List.length ids <= max)%nat /\
        forall id, In id ids ->
          exists e, In e log /\ itemId e = id /\
                    String.leb (_kstYMD (_daysAgo now7 7)) (_kstYMD (ts e))
                    = true /\
                    String.leb (_kstYMD (ts e)) (_kstYMD (_daysAgo now1 1))
                    = true).
Proof.
  split.
  - intros st now max ids H. unfold getYesterdayReviewSet in H.
    destruct (read_log st) as [log| |] eqn:Hlog; simpl in H;
      try discriminate.
    injection H as <-. exists log. split; [reflexivity|].
    split; [apply firstn_NoDup, rank_ids_NoDup|].
    split; [apply firstn_le_length|].
    intros id Hid. apply firstn_In, rank_ids_mem in Hid.
    destruct Hid as (Hid & _).
    apply in_map_iff in Hid. destruct Hid as (e & Eid & He).
    unfold yesterday_events in He. apply filter_In in He.
    destruct He as (He & E). apply String.eqb_eq in E.
    exists e. auto.
  - intros st now7 now1 max ids H. unfold getLast7DaysReviewSet in H.
    destruct (read_log st) as [log| |] eqn:Hlog; simpl in H;
      try discriminate.
    injection H as <-. exists log. split; [reflexivity|].
    split; [apply firstn_NoDup, rank_ids_NoDup|].
    split; [apply firstn_le_length|].
    intros id Hid. apply firstn_In, rank_ids_mem in Hid.
    destruct Hid as (Hid & _).
    apply in_map_iff in Hid. destruct Hid as (e & Eid & He).
    unfold last7_events in He. apply filter_In in He.
    destruct He as (He & E). apply andb_true_iff in E.
    exists e. tauto.
Qed.

Lemma review_sets_list_window_items_witness :
  exists log,
    read_log sample_storage = Ok log /\
    NoDup ["D1W1"%string] /\ (List.length ["D1W1"%string] <= default_max)%nat /\
    forall id, In id ["D1W1"%string] ->
      exists e, In e log /\ itemId e = id /\
                _kstYMD (ts e) = _kstYMD (_daysAgo sample_now 1).
Proof.
  apply (proj1 review_sets_list_window_items sample_storage sample_now
           default_max ["D1W1"%string]).
  vm_compute. reflexivity.
Defined.

(** The ranking is no longer than the list of the distinct item ids. *)
Lemma rank_length_item_ids events :
  (List.length (_rankEvents events) <= List.length (item_ids events))%nat.
Proof.
  apply NoDup_incl_length; [apply rank_ids_NoDup|].
  intros id H. apply nodup_In. apply rank_ids_mem in H. tauto.
Qed.

Lemma item_ids_filter (f : StudyEvent -> bool) events :
  (List.length (item_ids (filter f events)) <= List.length (item_ids events))%nat.
Proof.
  apply NoDup_incl_length; [apply NoDup_nodup|].
  intros id H. apply nodup_In in H. apply nodup_In.
  apply in_map_iff in H. destruct H as (e & <- & He).
  apply filter_In in He. apply in_map. tauto.
Qed.

(** The first [max] ids of the ranking of the events [window]: each has an
    event in [window], and when [window] has at most [max] distinct items
    every item of [window] is among them, the id [__proto__] apart. *)
Lemma review_set_of_window (window : list StudyEvent) (max : nat) :
  (forall id, In id (firstn max (_rankEvents window)) ->
     exists e, In e window /\ itemId e = id) /\
  ((List.length (item_ids window) <= max)%nat ->
   forall e, In e window -> itemId e <> "__proto__"%string ->
             In (itemId e) (firstn max (_rankEvents window))).
Proof.
  split.
  - intros id H. apply firstn_In, rank_ids_mem in H. destruct H as (H & _).
    apply in_map_iff in H. destruct H as (e & E & He). exists e. auto.
  - intros Hmax e He Hid.
    rewrite firstn_all2.
    + apply rank_ids_mem. split; [apply in_map; exact He | exact Hid].
    + pose proof (rank_length_item_ids window). lia.
Qed.

Lemma yesterday_set_spec st log now max :
  read_log st = Ok log ->
  kst_ok (_daysAgo now 1) ->
  Forall (fun e => kst_ok (ts e)) log ->
  exists ids,
    getYesterdayReviewSet st now max = Ok ids /\
    ids = firstn max (_rankEvents
            (filter (fun e => kst_day (ts e) =? kst_day now - 1) log)) /\
    (forall id, In id ids ->
       exists e, In e log /\ itemId e = id /\
                 kst_day (ts e) = kst_day now - 1) /\
    ((List.length
        (item_ids
           (filter (fun e => (kst_day (ts e) =? kst_day now - 1)%Z) log))
      <= max)%nat ->
     forall e, In e log -> kst_day (ts e) = kst_day now - 1 ->
               itemId e <> "__proto__"%string -> In (itemId e) ids).
Proof.
  intros Hlog Hnow Hev.
  unfold getYesterdayReviewSet. rewrite Hlog. cbn [bind].
  rewrite yesterday_events_filter by assumption.
  remember (filter (fun e => kst_day (ts e) =? kst_day now - 1) log)
    as window eqn:Ew.
  destruct (review_set_of_window window max) as (Hsound & Hcomplete).
  eexists. split; [reflexivity|]. split; [reflexivity|]. split.
  - intros id Hid. destruct (Hsound id Hid) as (e & He & Eid).
    rewrite Ew in He. apply filter_In in He. destruct He as (He & Hd).
    apply Z.eqb_eq in Hd. exists e. auto.
  - intros Hmax e He Hd Hid. apply Hcomplete; [exact Hmax | | exact Hid].
    rewrite Ew. apply filter_In. split; [exact He|]. apply Z.eqb_eq. exact Hd.
Qed.

Lemma last7_set_spec st log now7 now1 max :
  read_log st = Ok log ->
  kst_day now7 = kst_day now1 ->
  kst_ok (_daysAgo now7 7) -> kst_ok (_daysAgo now1 1) ->
  Forall (fun e => kst_ok (ts e)) log ->
  exists ids,
    getLast7DaysReviewSet st now7 now1 max = Ok ids /\
    ids = firstn max (_rankEvents
            (filter (fun e => (kst_day now1 - 7 <=? kst_day (ts e))
                              && (kst_day (ts e) <=? kst_day now1 - 1))
               log)) /\
    (forall id, In id ids ->
       exists e, In e log /\ itemId e = id /\
                 kst_day now1 - 7 <= kst_day (ts e) <= kst_day now1 - 1) /\
    ((List.length
        (item_ids
           (filter (fun e => ((kst_day now1 - 7 <=? kst_day (ts e))
                              && (kst_day (ts e) <=? kst_day now1 - 1))%Z)
              log))
      <= max)%nat ->
     forall e, In e log ->
               kst_day now1 - 7 <= kst_day (ts e) <= kst_day now1 - 1 ->
               itemId e <> "__proto__"%string -> In (itemId e) ids).
Proof.
  intros Hlog Hsame H7 H1 Hev.
  unfold getLast7DaysReviewSet. rewrite Hlog. cbn [bind].
  rewrite last7_events_filter by assumption.
  remember (filter (fun e => (kst_day now1 - 7 <=? kst_day (ts e))
                             && (kst_day (ts e) <=? kst_day now1 - 1)) log)
    as window eqn:Ew.
  destruct (review_set_of_window window max) as (Hsound & Hcomplete).
  eexists. split; [reflexivity|]. split; [reflexivity|]. split.
  - intros id Hid. destruct (Hsound id Hid) as (e & He & Eid).
    rewrite Ew in He. apply filter_In in He. destruct He as (He & Hd).
    apply andb_true_iff in Hd. rewrite !Z.leb_le in Hd. exists e. auto.
  - intros Hmax e He Hd Hid. apply Hcomplete; [exact Hmax | | exact Hid].
    rewrite Ew. apply filter_In. split; [exact He|].
    apply andb_true_iff. rewrite !Z.leb_le. exact Hd.
Qed.

(** The days of January 2025 by their numbers. *)
Lemma january_2025 t d :
  kst_ok t -> 1 <= d <= 31 -> kst_day t = 20088 + d ->
  on_kst_date t 2025 1 d.
Proof.
  intros (Ht & _) Hd E. split; [exact Ht|]. rewrite E.
  assert (H : forall k, 0 <= k -> k < 31 ->
                civil_of_days (20089 + k) = mkDate 2025 1 (1 + k)).
  { intros k Hk. pattern k. revert k Hk. apply natlike_ind.
    - intros _. vm_compute. reflexivity.
    - intros k Hk IH Hlt.
      replace (20089 + Z.succ k) with (Z.succ (20089 + k)) by lia.
      rewrite civil_of_days_succ by lia. rewrite IH by lia.
      unfold next_day. cbn [day month year].
      change (days_in_month 2025 1) with 31.
      replace (1 + k <? 31) with true by (symmetry; apply Z.ltb_lt; lia).
      f_equal. lia. }
  replace (20088 + d) with (20089 + (d - 1)) by lia.
  rewrite H by lia. f_equal. lia.
Qed.

(** X18: the review sets, for a stored log that decodes to an array and
    instants the formatter model covers.  [getYesterdayReviewSet(max)]
    returns the first [max] ids of the ranking of exactly the events whose
    Asia/Seoul day is the day before that of [now]: every id it returns
    has such an event, and when at most [max] distinct items have one,
    the item of every such event is returned, the id [__proto__] apart.
    [getLast7DaysReviewSet(max)] does the same for the days from seven
    days to one day before today, when its two readings of the clock fall
    on the same Asia/Seoul day.  The dated examples of the specification
    follow for the ids returned: the item of an event of 2025-01-10 is
    returned when [now] is any time of 2025-01-11, and when [now] is of
    2025-01-12 it is not, unless the item has an event of 2025-01-11; with
    [now] of 2025-01-15 the items of events of 2025-01-08 and 2025-01-14
    are returned, and those of events of 2025-01-07 and 2025-01-15 are
    not, unless they have an event of the days between. *)
Theorem review_sets_return_window_items :
  (forall (st : Storage) (log : list StudyEvent) (now : Z) (max : nat),
      read_log st = Ok log ->
      kst_ok (_daysAgo now 1) ->
      Forall (fun e => kst_ok (ts e)) log ->
      exists ids,
        getYesterdayReviewSet st now max = Ok ids /\
        ids = firstn max (_rankEvents
                (filter (fun e => kst_day (ts e) =? kst_day now - 1) log)) /\
        (forall id, In id ids ->
           exists e, In e log /\ itemId e = id /\
                     kst_day (ts e) = kst_day now - 1) /\
        ((List.length
            (item_ids
               (filter (fun e => (kst_day (ts e) =? kst_day now - 1)%Z) log))
          <= max)%nat ->
         forall e, In e log -> kst_day (ts e) = kst_day now - 1 ->
                   itemId e <> "__proto__"%string -> In (itemId e) ids)) /\
  (forall (st : Storage) (log : list StudyEvent) (now7 now1 : Z) (max : nat),
      read_log st = Ok log ->
      kst_day now7 = kst_day now1 ->
      kst_ok (_daysAgo now7 7) -> kst_ok (_daysAgo now1 1) ->
      Forall (fun e => kst_ok (ts e)) log ->
      exists ids,
        getLast7DaysReviewSet st now7 now1 max = Ok ids /\
        ids = firstn max (_rankEvents
                (filter (fun e => (kst_day now1 - 7 <=? kst_day (ts e))
                                  && (kst_day (ts e) <=? kst_day now1 - 1))
                   log)) /\
        (forall id, In id ids ->
           exists e, In e log /\ itemId e = id /\
                     kst_day now1 - 7 <= kst_day (ts e) <= kst_day now1 - 1) /\
        ((List.length
            (item_ids
               (filter (fun e => ((kst_day now1 - 7 <=? kst_day (ts e))
                                  && (kst_day (ts e) <=? kst_day now1 - 1))%Z)
                  log))
          <= max)%nat ->
         forall e, In e log ->
                   kst_day now1 - 7 <= kst_day (ts e) <= kst_day now1 - 1 ->
                   itemId e <> "__proto__"%string -> In (itemId e) ids)) /\
  (forall (st : Storage) (log : list StudyEvent) (e : StudyEvent) (now : Z)
          (max : nat) (ids : list string),
      read_log st = Ok log ->
      Forall (fun e => kst_ok (ts e)) log ->
      In e log -> on_kst_date (ts e) 2025 1 10 ->
      getYesterdayReviewSet st now max = Ok ids ->
      (on_kst_date now 2025 1 11 ->
       itemId e <> "__proto__"%string ->
       (List.length (item_ids log) <= max)%nat ->
       In (itemId e) ids) /\
      (on_kst_date now 2025 1 12 ->
       (forall e', In e' log -> itemId e' = itemId e ->
                   ~ on_kst_date (ts e') 2025 1 11) ->
       ~ In (itemId e) ids)) /\
  (forall (st : Storage) (log : list StudyEvent) (e : StudyEvent)
          (now7 now1 : Z) (max : nat) (ids : list string),
      read_log st = Ok log ->
      Forall (fun e => kst_ok (ts e)) log ->
      In e log ->
      on_kst_date now7 2025 1 15 -> on_kst_date now1 2025 1 15 ->
      getLast7DaysReviewSet st now7 now1 max = Ok ids ->
      (on_kst_date (ts e) 2025 1 8 \/ on_kst_date (ts e) 2025 1 14 ->
       itemId e <> "__proto__"%string ->
       (List.length (item_ids log) <= max)%nat ->
       In (itemId e) ids) /\
      (on_kst_date (ts e) 2025 1 7 \/ on_kst_date (ts e) 2025 1 15 ->
       (forall e' d, In e' log -> itemId e' = itemId e -> 8 <= d <= 14 ->
                     ~ on_kst_date (ts e') 2025 1 d) ->
       ~ In (itemId e) ids)).
Proof.
  split; [intros; apply yesterday_set_spec; assumption|].
  split; [intros; apply last7_set_spec; assumption|].
  split.
  - intros st log e now max ids Hlog Hev Hin He Hset.
    assert (Hforall := Hev). rewrite Forall_forall in Hforall.
    day_of He 20098. split.
    + intros Hnow Hid Hmax. day_of Hnow 20099.
      assert (H1 : kst_ok (_daysAgo now 1)) by kst_ok_at 20098.
      destruct (@yesterday_set_spec st log now max Hlog H1 Hev)
        as (ids' & E & _ & _ & Hcomplete).
      rewrite Hset in E. injection E as <-.
      apply Hcomplete; [| exact Hin | lia | exact Hid].
      etransitivity; [apply item_ids_filter | exact Hmax].
    + intros Hnow Hnone Hid. day_of Hnow 20100.
      assert (H1 : kst_ok (_daysAgo now 1)) by kst_ok_at 20099.
      destruct (@yesterday_set_spec st log now max Hlog H1 Hev)
        as (ids' & E & _ & Hsound & _).
      rewrite Hset in E. injection E as <-.
      destruct (Hsound _ Hid) as (e' & He' & Eid & Hd).
      apply (Hnone e' He' Eid).
      apply january_2025; [apply Hforall; exact He' | lia | lia].
  - intros st log e now7 now1 max ids Hlog Hev Hin Hnow7 Hnow1 Hset.
    assert (Hforall := Hev). rewrite Forall_forall in Hforall.
    day_of Hnow7 20103. day_of Hnow1 20103.
    assert (H7 : kst_ok (_daysAgo now7 7)) by kst_ok_at 20096.
    assert (H1 : kst_ok (_daysAgo now1 1)) by kst_ok_at 20102.
    assert (Hsame : kst_day now7 = kst_day now1) by lia.
    destruct (@last7_set_spec st log now7 now1 max Hlog Hsame H7 H1 Hev)
      as (ids' & E & _ & Hsound & Hcomplete).
    rewrite Hset in E. injection E as <-. split.
    + intros He Hid Hmax.
      apply Hcomplete; [| exact Hin | | exact Hid].
      * etransitivity; [apply item_ids_filter | exact Hmax].
      * destruct He as [He|He]; [day_of He 20096 | day_of He 20102]; lia.
    + intros He Hnone Hid.
      destruct (Hsound _ Hid) as (e' & He' & Eid & Hd).
      apply (Hnone e' (kst_day (ts e') - 20088) He' Eid); [lia|].
      apply january_2025; [apply Hforall; exact He' | lia | lia].
Qed.

Lemma review_sets_return_window_items_witness :
  exists ids,
    getYesterdayReviewSet sample_storage sample_now default_max = Ok ids /\
    In "D1W1"%string ids /\
    (forall id, In id ids ->
       exists e, In e sample_log /\ itemId e = id /\
                 kst_day (ts e) = kst_day sample_now - 1).
Proof.
  assert (Hlog : read_log sample_storage = Ok sample_log) by reflexivity.
  assert (H1 : kst_ok (_daysAgo sample_now 1))
    by (split; vm_compute; discriminate).
  assert (Hev : Forall (fun e => kst_ok (ts e)) sample_log)
    by (repeat constructor; vm_compute; discriminate).
  destruct (proj1 review_sets_return_window_items sample_storage sample_log
              sample_now default_max Hlog H1 Hev)
    as (ids & E & _ & Hsound & Hcomplete).
  exists ids. split; [exact E|]. split; [|exact Hsound].
  apply (Hcomplete ltac:(vm_compute; lia)
           (mkEvent "D1W1" "word" "wrong" 1736434800000)).
  - left. reflexivity.
  - vm_compute. reflexivity.
  - discriminate.
Defined.

Lemma read_log_after_logStudy st now id ty o st' :
  logStudy st now id ty o = Ok st' ->
  exists log,
    read_log st = Ok log /\
    read_log st' = Ok (log ++ [mkEvent id ty o now]) /\
    quizItems st' = quizItems st.
Proof.
  unfold logStudy. intros H.
  destruct (read_log st) as [log| |]; simpl in H; try discriminate.
  injection H as <-. exists log. repeat split.
Qed.

(** X8: what is studied today does not show up in today's review sets: an
    event logged at [now] leaves unchanged the review sets read at any
    instant of the same Asia/Seoul day or of an earlier one. *)
Theorem todays_events_not_in_review_sets :
  forall (st st' : Storage) (now : Z) (id ty o : string)
         (now7 now1 : Z) (max : nat),
    logStudy st now id ty o = Ok st' ->
    kst_ok now -> kst_ok (_daysAgo now1 1) ->
    kst_day now1 <= kst_day now ->
    getYesterdayReviewSet st' now1 max = getYesterdayReviewSet st now1 max /\
    getLast7DaysReviewSet st' now7 now1 max
    = getLast7DaysReviewSet st now7 now1 max.
Proof.
  intros st st' now id ty o now7 now1 max Hlog Hnow H1 Hle.
  destruct (read_log_after_logStudy _ _ _ _ _ Hlog) as (log & E & E' & _).
  unfold getYesterdayReviewSet, getLast7DaysReviewSet.
  rewrite E, E'. simpl.
  unfold yesterday_events, last7_events. rewrite !filter_app. simpl.
  rewrite (kstYMD_eqb Hnow H1), (kstYMD_leb Hnow H1), kst_day_daysAgo.
  replace (kst_day now =? kst_day now1 - 1) with false
    by (symmetry; apply Z.eqb_neq; lia).
  replace (kst_day now <=? kst_day now1 - 1) with false
    by (symmetry; apply Z.leb_gt; lia).
  rewrite andb_false_r, !app_nil_r. split; reflexivity.
Qed.

Lemma todays_events_not_in_review_sets_witness :
  getYesterdayReviewSet
    (mkStorage
       (Some (JSON_stringify
                (sample_log ++ [mkEvent "D2W2" "word" "wrong" sample_now])))
       (quizItems sample_storage))
    sample_now default_max
  = getYesterdayReviewSet sample_storage sample_now default_max.
Proof.
  assert (Hnow : kst_ok sample_now) by (split; vm_compute; discriminate).
  assert (H1 : kst_ok (_daysAgo sample_now 1))
    by (split; vm_compute; discriminate).
  assert (Hle : kst_day sample_now <= kst_day sample_now) by lia.
  assert (Hlog : logStudy sample_storage sample_now "D2W2" "word" "wrong"
                 = Ok (mkStorage
                         (Some (JSON_stringify
                                  (sample_log
                                   ++ [mkEvent "D2W2" "word" "wrong"
                                         sample_now])))
                         (quizItems sample_storage)))
    by reflexivity.
  exact (proj1 (@todays_events_not_in_review_sets _ _ _ _ _ _ sample_now
                  sample_now default_max Hlog Hnow H1 Hle)).
Defined.

(** ** The quiz hand-off and the quiz page *)

Lemma before_last_slash_none s :
  has_slash s = false -> before_last_slash s = None.
Proof.
  induction s as [|c s IH]; simpl; [reflexivity|].
  intros H. apply orb_false_iff in H. destruct H as (Hc & Hs).
  rewrite (IH Hs), Hc. reflexivity.
Qed.

Lemma before_last_slash_split dir file :
  has_slash file = false ->
  before_last_slash (dir ++ String "/" file) = Some dir.
Proof.
  intros H. induction dir as [|c dir IH]; simpl.
  - rewrite (before_last_slash_none _ H). reflexivity.
  - rewrite IH. reflexivity.
Qed.

(** X9: [startQuiz] sends the window to the page [quiz.html] that sits
    beside the current page: when the path is a directory part, a ["/"] and
    a last segment without ["/"], the address is the directory part
    followed by ["/quiz.html"]; a path without any ["/"] is kept whole. *)
Theorem startQuiz_navigates_to_sibling :
  forall (b : Browser) (id : string) (ids : list string),
    (forall dir file : string,
        pathname b = (dir ++ String "/" file)%string ->
        has_slash file = false ->
        navigated (startQuiz b (Some (id :: ids)))
        = Some (dir ++ "/quiz.html")%string) /\
    (has_slash (pathname b) = false ->
     navigated (startQuiz b (Some (id :: ids)))
     = Some (pathname b ++ "/quiz.html")%string).
Proof.
  intros b id ids. split.
  - intros dir file Hp Hf. simpl. unfold strip_last_segment.
    rewrite Hp, (before_last_slash_split _ _ Hf). reflexivity.
  - intros H. simpl. unfold strip_last_segment.
    rewrite (before_last_slash_none _ H). reflexivity.
Qed.

Lemma startQuiz_navigates_to_sibling_witness :
  navigated
    (startQuiz (mkBrowser (mkStorage None None) "/jp/pages/review.html" None [])
       (Some ["D1W1"%string]))
  = Some "/jp/pages/quiz.html"%string.
Proof.
  apply (proj1 (startQuiz_navigates_to_sibling
                  (mkBrowser (mkStorage None None) "/jp/pages/review.html"
                     None [])
                  "D1W1" []) "/jp/pages"%string "review.html"%string).
  - reflexivity.
  - reflexivity.
Defined.

(** X10: the hand-off through the key ['quizItems']: after [startQuiz] with
    a non-empty list, whatever list was pending before, [buildQuizPage]
    resolves exactly that list against the catalog it loads and never
    shows the text for no items; with the catalog loaded and the choices
    of the first resolved item built, it shows that item, the first of the
    requested ones in catalog order. *)
Theorem startQuiz_then_buildQuizPage :
  forall (b : Browser) (id : string) (ids : list string) (fuel : nat)
         (container : bool) (fetched : option (list Day))
         (rnd : nat -> nat * nat) (shuffle : list string -> list string),
    let st := storage (startQuiz b (Some (id :: ids))) in
    buildQuizPage fuel st container fetched rnd shuffle
    = loadDailyPlan fetched (fun plan =>
        showNext fuel plan rnd shuffle container
          (generateQuizData (id :: ids) plan) 0) /\
    buildQuizPage fuel st container fetched rnd shuffle <> Ok NoItems /\
    (forall plan item rest opts,
        fetched = Some plan ->
        generateQuizData (id :: ids) plan = item :: rest ->
        build_options fuel plan rnd (q_ko item) = Ok opts ->
        buildQuizPage fuel st true fetched rnd shuffle
        = Ok (Question item (shuffle opts))).
Proof.
  intros b id ids fuel container fetched rnd shuffle st.
  assert (E : buildQuizPage fuel st container fetched rnd shuffle
              = loadDailyPlan fetched (fun plan =>
                  showNext fuel plan rnd shuffle container
                    (generateQuizData (id :: ids) plan) 0))
    by reflexivity.
  split; [exact E|]. split.
  - assert (Hs : forall plan,
               showNext fuel plan rnd shuffle container
                 (generateQuizData (id :: ids) plan) 0 <> Ok NoItems).
    { intros plan. unfold showNext. destruct container; [|discriminate].
      destruct (nth_error (generateQuizData (id :: ids) plan) 0) as [it|];
        [|discriminate].
      destruct (build_options fuel plan rnd (q_ko it)); simpl; discriminate. }
    rewrite E. unfold loadDailyPlan.
    destruct fetched as [plan|]; [|apply Hs].
    destruct (showNext fuel plan rnd shuffle container
                (generateQuizData (id :: ids) plan) 0) eqn:Es.
    + rewrite <- Es. apply Hs.
    + apply Hs.
    + discriminate.
  - intros plan item rest opts -> Hitems Hopts.
    unfold st, buildQuizPage. simpl. unfold showNext.
    rewrite Hitems. simpl. rewrite Hopts. reflexivity.
Qed.

Lemma startQuiz_then_buildQuizPage_witness :
  buildQuizPage 4
    (storage
       (startQuiz
          (mkBrowser (mkStorage None (Some (Json ["D9W9"%string])))
             "/jp/pages/review.html" None [])
          (Some ["D1W2"; "D1W1"]%string)))
    true (Some four_word_plan) round_robin (fun l => l)
  = Ok (Question (mkItem "D1W1" "word" "本" "책")
          ["책"; "고양이"; "물"; "개"]%string).
Proof.
  apply (proj2 (proj2 (startQuiz_then_buildQuizPage
           (mkBrowser (mkStorage None (Some (Json ["D9W9"%string])))
              "/jp/pages/review.html" None [])
           "D1W2" ["D1W1"%string] 4 true (Some four_word_plan) round_robin
           (fun l => l)))
         four_word_plan (mkItem "D1W1" "word" "本" "책")
         [mkItem "D1W2" "word" "猫" "고양이"]
         ["책"; "고양이"; "물"; "개"]%string).
  - reflexivity.
  - reflexivity.
  - reflexivity.
Defined.

Lemma generateQuizData_other_empty j : generateQuizData_other j [] = Ok [].
Proof. reflexivity. Qed.

(** On a value with a truthy [length] that is no string, the first call of
    [includes] throws, and every day of the catalog makes such a call. *)
Lemma generateQuizData_other_throws d plan :
  generateQuizData_other (JOther true) (d :: plan) = Throw TypeError.
Proof.
  unfold generateQuizData_other. cbn [plan_forEach_other].
  destruct (words d); reflexivity.
Qed.

(** X12: what [buildQuizPage] lets out and what it catches.  It throws in
    exactly two cases, both before the catalog is requested: the
    [SyntaxError] of a pending list that is no JSON text, and the
    [TypeError] of reading [length] of a pending value [null].  What is
    thrown later, while the quiz items are resolved or the first question
    is built, is caught by the [catch] of [loadDailyPlan], which calls the
    callback again with the empty catalog: the page then shows the text
    for a finished quiz.  This is the case when [showNext()] throws for the
    first item, and when the pending value is an object that has a truthy
    [length] and, being no array, no method [includes]. *)
Theorem buildQuizPage_catches_first_question :
  forall (fuel : nat) (st : Storage) (container : bool)
         (fetched : option (list Day)) (rnd : nat -> nat * nat)
         (shuffle : list string -> list string),
    (forall e, buildQuizPage fuel st container fetched rnd shuffle = Throw e <->
               (e = SyntaxError /\ quizItems st = Some Malformed) \/
               (e = TypeError /\ quizItems st = Some (Json_other JNull))) /\
    (forall id ids plan e,
        quizItems st = Some (Json (id :: ids)) ->
        fetched = Some plan ->
        showNext fuel plan rnd shuffle container
          (generateQuizData (id :: ids) plan) 0 = Throw e ->
        buildQuizPage fuel st container fetched rnd shuffle
        = Ok QuizComplete) /\
    (forall d plan,
        quizItems st = Some (Json_other (JOther true)) ->
        fetched = Some (d :: plan) ->
        buildQuizPage fuel st container fetched rnd shuffle
        = Ok (if container then QuizComplete else Untouched)).
Proof.
  intros fuel st container fetched rnd shuffle.
  assert (Hload : forall (callback : list Day -> result view) e,
             (forall e', callback [] <> Throw e') ->
             loadDailyPlan fetched callback <> Throw e).
  { intros callback e Hc. unfold loadDailyPlan.
    destruct fetched as [plan|]; [|apply Hc].
    destruct (callback plan) eqn:Ec; [discriminate | apply Hc | discriminate]. }
  split; [|split].
  - intros e. split.
    + intros H. unfold buildQuizPage in H.
      destruct (quizItems st) as [[| |ids|j]|] eqn:Eq; cbn in H.
      * discriminate.
      * injection H as <-. auto.
      * destruct ids as [|id ids]; [discriminate|].
        exfalso. revert H. apply Hload. intros e'.
        unfold showNext. destruct container; discriminate.
      * destruct j as [|s|[|]]; cbn in H.
        -- injection H as <-. auto.
        -- destruct (negb (String.length s =? 0)%nat); [|discriminate].
           exfalso. revert H. apply Hload. intros e'.
           unfold showNext. cbn. destruct container; discriminate.
        -- exfalso. revert H. apply Hload. intros e'.
           unfold showNext. cbn. destruct container; discriminate.
        -- discriminate.
      * discriminate.
    + intros [[-> Hq]|[-> Hq]]; unfold buildQuizPage; rewrite Hq; reflexivity.
  - intros id ids plan e Hids -> Hthrow.
    assert (Hc : container = true).
    { destruct container; [reflexivity|]. discriminate Hthrow. }
    unfold buildQuizPage. rewrite Hids. cbn.
    rewrite Hthrow, Hc. reflexivity.
  - intros d plan Hq ->.
    unfold buildQuizPage. rewrite Hq. cbn [or_default JSON_parse bind has_length].
    unfold loadDailyPlan. rewrite generateQuizData_other_throws.
    cbn [bind]. rewrite generateQuizData_other_empty. cbn [bind].
    unfold showNext. destruct container; reflexivity.
Qed.

Lemma buildQuizPage_catches_first_question_witness :
  buildQuizPage 4 (mkStorage None (Some (Json ["D1P"%string]))) true
    (Some [mkDay "これは~です" "이것은 ~입니다" []]) round_robin (fun l => l)
  = Ok QuizComplete.
Proof.
  apply (proj1 (proj2 (buildQuizPage_catches_first_question 4
                  (mkStorage None (Some (Json ["D1P"%string]))) true
                  (Some [mkDay "これは~です" "이것은 ~입니다" []])
                  round_robin (fun l => l)))
           "D1P"%string [] [mkDay "これは~です" "이것은 ~입니다" []] TypeError).
  - reflexivity.
  - reflexivity.
  - reflexivity.
Defined.

(** X13: when the shuffle rearranges the choices, a question on the page
    has exactly four buttons with pairwise different labels, and exactly
    one of them carries the answer of the item, so exactly one button logs
    the outcome ["correct"]. *)
Theorem question_has_one_correct_button :
  forall (fuel : nat) (plan : list Day) (rnd : nat -> nat * nat)
         (shuffle : list string -> list string) (items : list QuizItem)
         (current : nat) (item : QuizItem) (options : list string),
    (forall l, Permutation (shuffle l) l) ->
    showNext fuel plan rnd shuffle true items current
    = Ok (Question item options) ->
    List.length options = 4%nat /\ NoDup options /\
    exists l1 l2,
      options = l1 ++ q_ko item :: l2 /\
      ~ In (q_ko item) l1 /\ ~ In (q_ko item) l2 /\
      incl (l1 ++ l2) (distractors plan (q_ko item)).
Proof.
  intros fuel plan rnd shuffle items current item options Hperm H.
  unfold showNext in H.
  destruct (nth_error items current) as [it|]; [|discriminate].
  destruct (build_options fuel plan rnd (q_ko it)) as [opts| |] eqn:Eo;
    simpl in H; try discriminate.
  injection H as -> <-.
  destruct (build_options_result _ _ _ _ Eo) as (Hlen & Hnd & Hhd & Hincl).
  destruct opts as [|a others]; [discriminate|].
  simpl in Hhd, Hincl. injection Hhd as ->.
  pose proof (Hperm (q_ko item :: others)) as HP.
  assert (Hnd' : NoDup (shuffle (q_ko item :: others))).
  { eapply Permutation_NoDup; [symmetry; exact HP | exact Hnd]. }
  split; [rewrite (Permutation_length HP); exact Hlen|].
  split; [exact Hnd'|].
  assert (Hin : In (q_ko item) (shuffle (q_ko item :: others))).
  { eapply Permutation_in; [symmetry; exact HP | left; reflexivity]. }
  apply in_split in Hin. destruct Hin as (l1 & l2 & E).
  exists l1, l2. split; [exact E|].
  rewrite E in Hnd'. apply NoDup_remove in Hnd'.
  destruct Hnd' as (_ & Hnot).
  split; [intros Hx; apply Hnot, in_or_app; auto|].
  split; [intros Hx; apply Hnot, in_or_app; auto|].
  rewrite E in HP.
  apply Permutation_sym, Permutation_cons_app_inv in HP.
  intros x Hx. apply Hincl.
  eapply Permutation_in; [symmetry; exact HP | exact Hx].
Qed.

Lemma question_has_one_correct_button_witness :
  exists l1 l2,
    ["개"; "물"; "고양이"; "책"]%string = l1 ++ "책"%string :: l2 /\
    ~ In "책"%string l1 /\ ~ In "책"%string l2 /\
    incl (l1 ++ l2) (distractors four_word_plan "책").
Proof.
  apply (@question_has_one_correct_button 4 four_word_plan round_robin
           (@rev string)
           (generateQuizData ["D1W1"%string] four_word_plan) 0
           (mkItem "D1W1" "word" "本" "책")
           ["개"; "물"; "고양이"; "책"]%string).
  - intros l. symmetry. apply Permutation_rev.
  - reflexivity.
Defined.

(** ** A quiz session *)

Lemma firstn_S_nth_error (A : Type) (l : list A) : forall n x,
  nth_error l n = Some x -> firstn (S n) l = firstn n l ++ [x].
Proof.
  induction l as [|a l IH]; intros n x H.
  - destruct n; discriminate.
  - destruct n as [|n].
    + injection H as ->. reflexivity.
    + simpl in H. rewrite firstn_cons, (IH _ _ H). reflexivity.
Qed.

Lemma showNext_no_throw fuel plan rnd shuffle container items current e :
  Forall (fun d => words d <> []) plan -> plan <> [] ->
  showNext fuel plan rnd shuffle container items current <> Throw e.
Proof.
  intros Hw Hp. unfold showNext. destruct container; [|discriminate].
  destruct (nth_error items current) as [item|]; [|discriminate].
  unfold build_options.
  destruct (choice_loop fuel plan rnd 0 [q_ko item]) eqn:E; simpl;
    try discriminate.
  exfalso. revert E. apply choice_loop_no_throw; assumption.
Qed.

Section QuizSession.
Variable fuel : nat.
Variable plan : list Day.
Variable rnds : nat -> nat -> nat * nat.
Variable shuffle : list string -> list string.
Variable items : list QuizItem.
Variable log0 : list StudyEvent.
Variable pending : option (stored (list string)).
Hypothesis days_have_words : Forall (fun d => words d <> []) plan.
Hypothesis plan_not_empty : plan <> [].

Lemma click_keeps_session s opt now s' :
  session_ok fuel plan rnds shuffle items log0 pending s ->
  click fuel plan rnds shuffle items s opt now = Ok s' ->
  session_ok fuel plan rnds shuffle items log0 pending s' /\
  (s_current s <= s_current s' <= S (s_current s))%nat.
Proof.
  intros Hok Hclick. unfold click in Hclick.
  destruct (s_view s) as [| | |item options] eqn:Ev;
    try (injection Hclick as <-; split; [exact Hok | lia]).
  destruct (includes options opt);
    [|injection Hclick as <-; split; [exact Hok | lia]].
  destruct Hok as ((evs & Hlog & Hids & Htys & Hout) & Hq & Hle & Hshow).
  unfold select_choice, logStudy in Hclick. rewrite Hlog in Hclick.
  cbn [bind fst snd] in Hclick.
  assert (Hitem : nth_error items (s_current s) = Some item).
  { rewrite Ev in Hshow. unfold showNext in Hshow.
    destruct (nth_error items (s_current s)) as [it|]; [|discriminate].
    destruct (build_options fuel plan (rnds (s_current s)) (q_ko it));
      simpl in Hshow; try discriminate.
    injection Hshow as -> _. reflexivity. }
  destruct (showNext fuel plan (rnds (S (s_current s))) shuffle true items
              (S (s_current s))) as [v|e|] eqn:Enext.
  - injection Hclick as <-. unfold session_ok.
    cbn [s_storage s_current s_view quizItems]. split; [|lia].
    split; [|split; [exact Hq|split]].
    + exists (evs ++ [mkEvent (q_id item) (q_type item)
                        (if String.eqb opt (q_ko item)
                         then "correct" else "wrong")%string now]).
      split; [rewrite app_assoc; reflexivity|].
      rewrite (firstn_S_nth_error _ _ Hitem), !map_app, Hids, Htys.
      simpl. split; [reflexivity|]. split; [reflexivity|].
      apply Forall_app. split; [exact Hout|]. constructor; [|constructor].
      simpl. destruct (String.eqb opt (q_ko item)); auto.
    + apply Nat.le_succ_l. apply nth_error_Some. congruence.
    + exact Enext.
  - exfalso. revert Enext. apply showNext_no_throw; assumption.
  - discriminate.
Qed.

Lemma play_keeps_session clicks : forall s s',
  session_ok fuel plan rnds shuffle items log0 pending s ->
  play fuel plan rnds shuffle items s clicks = Ok s' ->
  session_ok fuel plan rnds shuffle items log0 pending s' /\
  (s_current s <= s_current s' <= s_current s + List.length clicks)%nat.
Proof.
  induction clicks as [|[opt now] clicks IH]; intros s s' Hok Hplay.
  - simpl in Hplay. injection Hplay as <-. split; [exact Hok | simpl; lia].
  - simpl in Hplay.
    destruct (click fuel plan rnds shuffle items s opt now) as [s1| |] eqn:Ec;
      simpl in Hplay; try discriminate.
    destruct (@click_keeps_session s opt now s1 Hok Ec) as (Hok1 & Hc1).
    destruct (IH s1 s' Hok1 Hplay) as (Hok' & Hc').
    split; [exact Hok'|]. simpl. lia.
Qed.
End QuizSession.

(** X14: a quiz session on a catalog in which every day has a word.
    Starting from the first question and a log that decodes, after any
    sequence of clicks the log is the initial log followed by exactly one
    event per item passed, in the order of the quiz items and with their
    ids and types, each with outcome ["correct"] or ["wrong"]; the pending
    list is untouched; the cursor has moved by at most one per click and
    never beyond the last item; and the page shows the text for a finished
    quiz exactly when every item has been answered. *)
Theorem quiz_session_logs_one_event_per_item :
  forall (fuel : nat) (plan : list Day) (rnds : nat -> nat -> nat * nat)
         (shuffle : list string -> list string) (items : list QuizItem)
         (st0 : Storage) (log0 : list StudyEvent) (v0 : view)
         (clicks : list (string * Z)) (s : Session),
    Forall (fun d => words d <> []) plan -> plan <> [] ->
    read_log st0 = Ok log0 ->
    showNext fuel plan (rnds 0%nat) shuffle true items 0 = Ok v0 ->
    play fuel plan rnds shuffle items (mkSession st0 0 v0) clicks = Ok s ->
    (exists evs,
        read_log (s_storage s) = Ok (log0 ++ evs) /\
        map itemId evs = map q_id (firstn (s_current s) items) /\
        map itemType evs = map q_type (firstn (s_current s) items) /\
        Forall (fun e => outcome e = "correct"%string
                         \/ outcome e = "wrong"%string) evs) /\
    quizItems (s_storage s) = quizItems st0 /\
    (s_current s <= List.length items)%nat /\
    (s_current s <= List.length clicks)%nat /\
    (s_view s = QuizComplete <-> s_current s = List.length items).
Proof.
  intros fuel plan rnds shuffle items st0 log0 v0 clicks s Hw Hp Hlog Hv0
    Hplay.
  assert (H0 : session_ok fuel plan rnds shuffle items log0 (quizItems st0)
                 (mkSession st0 0 v0)).
  { split; [|split; [reflexivity|split; [simpl; lia | exact Hv0]]].
    exists []. rewrite app_nil_r. simpl. repeat split; trivial. }
  destruct (@play_keeps_session fuel plan rnds shuffle items log0
              (quizItems st0) Hw Hp clicks _ _ H0 Hplay)
    as ((Hevs & Hq & Hle & Hshow) & Hcur).
  split; [exact Hevs|]. split; [exact Hq|]. split; [exact Hle|].
  split; [simpl in Hcur; lia|].
  unfold showNext in Hshow. split.
  - intros Ev. rewrite Ev in Hshow.
    destruct (nth_error items (s_current s)) as [it|] eqn:En.
    + destruct (build_options fuel plan (rnds (s_current s)) (q_ko it));
        simpl in Hshow; discriminate.
    + apply nth_error_None in En. lia.
  - intros E.
    assert (En : nth_error items (s_current s) = None).
    { apply nth_error_None. lia. }
    rewrite En in Hshow. injection Hshow as <-. reflexivity.
Qed.

Lemma quiz_session_logs_one_event_per_item_witness :
  s_view sample_session_end = QuizComplete /\
  s_current sample_session_end = 2%nat /\
  exists evs,
    read_log (s_storage sample_session_end) = Ok (sample_log ++ evs) /\
    map itemId evs = ["D1W1"; "D1W2"]%string /\
    map outcome evs = ["correct"; "wrong"]%string.
Proof.
  assert (Hw : Forall (fun d => words d <> []) four_word_plan)
    by (repeat constructor; discriminate).
  assert (Hp : four_word_plan <> []) by discriminate.
  assert (Hlog : read_log sample_storage = Ok sample_log) by reflexivity.
  assert (Hv0 : showNext 8 four_word_plan round_robin (@rev string) true
                  sample_items 0
                = Ok (Question (mkItem "D1W1" "word" "本" "책")
                        ["개"; "물"; "고양이"; "책"]%string))
    by (vm_compute; reflexivity).
  assert (Hplay : play 8 four_word_plan (fun _ => round_robin) (@rev string)
                    sample_items
                    (mkSession sample_storage 0
                       (Question (mkItem "D1W1" "word" "本" "책")
                          ["개"; "물"; "고양이"; "책"]%string))
                    sample_clicks
                  = Ok sample_session_end)
    by (vm_compute; reflexivity).
  destruct (@quiz_session_logs_one_event_per_item 8 four_word_plan
              (fun _ => round_robin) (@rev string) sample_items
              sample_storage sample_log _ sample_clicks sample_session_end
              Hw Hp Hlog Hv0 Hplay)
    as ((evs & Hevs & Hids & _) & _ & _ & _ & Hdone).
  assert (Hcur : s_current sample_session_end = 2%nat) by reflexivity.
  split; [apply Hdone; exact Hcur|]. split; [exact Hcur|].
  exists evs. split; [exact Hevs|]. split; [exact Hids|].
  assert (E : read_log (s_storage sample_session_end)
              = Ok (sample_log
                    ++ [mkEvent "D1W1" "word" "correct" 1736560000000;
                        mkEvent "D1W2" "word" "wrong" 1736560005000]))
    by reflexivity.
  rewrite E in Hevs. injection Hevs as Hevs. subst evs. reflexivity.
Defined.

(** ** The sound switch *)

(** X15: the sound switch survives page loads.  After [enableSound()] on
    any page, every later page load ends with sound enabled and the button
    hidden.  A page load with any other stored value, or none, ends with
    sound disabled, and the button, when the page has one, visible with one
    listener; [speakJA] then queues nothing and returns [false], and a
    click on the button enables sound, stores ["1"] and hides the button.
    With sound enabled [speakJA] returns [true] and queues the text in
    Japanese exactly when the page has speech synthesis and [speak] does
    not throw. *)
Theorem sound_switch_persists :
  (forall (s : Sound) (has_button : bool),
      let s' := page_load (soundEnabled (enableSound s)) has_button in
      SOUND_ENABLED s' = true /\
      button s' = (if has_button then Some (mkButton true 1) else None)) /\
  (forall (saved : option string) (has_button : bool)
          (w : Speech) (queue : list Utterance) (text : string),
      saved <> Some "1"%string ->
      let s' := page_load saved has_button in
      SOUND_ENABLED s' = false /\
      button s' = (if has_button then Some (mkButton false 1) else None) /\
      speakJA s' w queue text = (false, queue) /\
      (has_button = true ->
       click_button s' = mkSound true (Some "1"%string)
                           (Some (mkButton true 1)))) /\
  (forall (s : Sound) (w : Speech) (queue : list Utterance) (text : string),
      SOUND_ENABLED s = true ->
      speakJA s w queue text
      = if has_speechSynthesis w && negb (speak_throws w)
        then (true, queue ++ [mkUtterance text "ja-JP"])
        else (false, queue)).
Proof.
  split; [|split].
  - intros s has_button. destruct has_button; split; reflexivity.
  - intros saved has_button w queue text Hsaved.
    assert (E : page_load saved has_button
                = mkSound false saved
                    (if has_button then Some (mkButton false 1) else None)).
    { unfold page_load, initSoundButton. simpl.
      destruct saved as [v|].
      - destruct (String.eqb_spec v "1") as [->|Hne]; [congruence|].
        destruct has_button; reflexivity.
      - destruct has_button; reflexivity. }
    simpl. rewrite E. simpl. repeat split.
    intros ->. reflexivity.
  - intros s w queue text Hs. unfold speakJA. rewrite Hs. simpl.
    destruct (has_speechSynthesis w), (speak_throws w); reflexivity.
Qed.

Lemma sound_switch_persists_witness :
  SOUND_ENABLED (page_load (Some "0"%string) true) = false /\
  click_button (page_load (Some "0"%string) true)
  = mkSound true (Some "1"%string) (Some (mkButton true 1)) /\
  speakJA (click_button (page_load None true)) (mkSpeech true false) []
    "こんにちは"
  = (true, [mkUtterance "こんにちは" "ja-JP"]).
Proof.
  destruct (proj1 (proj2 sound_switch_persists) (Some "0"%string) true
              (mkSpeech true false) [] "こんにちは"%string)
    as (H1 & _ & _ & H2); [discriminate|].
  split; [exact H1|]. split; [apply H2; reflexivity|].
  apply (proj2 (proj2 sound_switch_persists)). reflexivity.
Defined.

(** ** The item ids of the catalog *)

Lemma digit_is_digit k : 0 <= k <= 9 -> is_digit (digit k) = true.
Proof.
  intros H.
  assert (E : k = 0 \/ k = 1 \/ k = 2 \/ k = 3 \/ k = 4 \/ k = 5 \/ k = 6
              \/ k = 7 \/ k = 8 \/ k = 9) by lia.
  repeat (destruct E as [E|E]; [subst k; reflexivity|]).
  subst k; reflexivity.
Qed.

Lemma digit_value k : 0 <= k <= 9 -> Z.of_N (N_of_ascii (digit k)) - 48 = k.
Proof.
  intros H.
  assert (E : k = 0 \/ k = 1 \/ k = 2 \/ k = 3 \/ k = 4 \/ k = 5 \/ k = 6
              \/ k = 7 \/ k = 8 \/ k = 9) by lia.
  repeat (destruct E as [E|E]; [subst k; reflexivity|]).
  subst k; reflexivity.
Qed.

Lemma decimal_aux_digits f : forall n acc,
  0 <= n -> all_digits acc = true -> all_digits (decimal_aux f n acc) = true.
Proof.
  induction f as [|f IH]; intros n acc Hn Hacc; simpl; [exact Hacc|].
  assert (Hd : all_digits (String (digit (n mod 10)) acc) = true).
  { simpl. rewrite digit_is_digit by div_lia. exact Hacc. }
  destruct (n <? 10); [exact Hd|].
  apply IH; [div_lia | exact Hd].
Qed.

Lemma decimal_digits n : 0 <= n -> all_digits (decimal n) = true.
Proof. intros H. apply decimal_aux_digits; [exact H | reflexivity]. Qed.

Lemma decimal_value_shift s : forall acc,
  decimal_value acc s
  = acc * 10 ^ Z.of_nat (String.length s) + decimal_value 0 s.
Proof.
  induction s as [|c s IH]; intros acc.
  - simpl. lia.
  - cbn [decimal_value String.length].
    rewrite (IH (10 * acc + _)), (IH (10 * 0 + _)).
    rewrite Nat2Z.inj_succ, Z.pow_succ_r by lia. ring.
Qed.

Lemma decimal_aux_value f : forall n acc,
  0 <= n < 10 ^ Z.of_nat f ->
  decimal_value 0 (decimal_aux f n acc)
  = n * 10 ^ Z.of_nat (String.length acc) + decimal_value 0 acc.
Proof.
  induction f as [|f IH]; intros n acc Hn.
  - simpl in *. assert (n = 0) by lia. subst n. lia.
  - cbn [decimal_aux].
    assert (Hstep : decimal_value 0 (String (digit (n mod 10)) acc)
                    = (n mod 10) * 10 ^ Z.of_nat (String.length acc)
                      + decimal_value 0 acc).
    { cbn [decimal_value]. rewrite decimal_value_shift.
      rewrite digit_value by div_lia. ring. }
    destruct (Z.ltb_spec n 10) as [Hlt|Hge].
    + rewrite Hstep. replace (n mod 10) with n by div_lia. reflexivity.
    + rewrite IH.
      * rewrite Hstep. cbn [String.length].
        rewrite Nat2Z.inj_succ, Z.pow_succ_r by lia.
        pose proof (Z.div_mod n 10 ltac:(lia)) as Hdm.
        set (p := 10 ^ Z.of_nat (String.length acc)).
        rewrite Hdm at 3. ring.
      * rewrite Nat2Z.inj_succ, Z.pow_succ_r in Hn by lia.
        split; [div_lia|]. apply Z.div_lt_upper_bound; lia.
Qed.

(** Reading back the decimal name of a number gives the number. *)
Lemma decimal_value_decimal n : 0 <= n -> decimal_value 0 (decimal n) = n.
Proof.
  intros Hn. unfold decimal. rewrite decimal_aux_value.
  - simpl. lia.
  - split; [exact Hn|].
    rewrite Nat2Z.inj_succ, Z2Nat.id by apply Z.log2_nonneg.
    destruct (Z.eq_dec n 0) as [->|Hne].
    + simpl. lia.
    + pose proof (Z.log2_spec n ltac:(lia)) as (_ & Hlt).
      eapply Z.lt_le_trans; [exact Hlt|].
      apply Z.pow_le_mono_l. lia.
Qed.

Lemma decimal_inj n m : 0 <= n -> 0 <= m -> decimal n = decimal m -> n = m.
Proof.
  intros Hn Hm E.
  rewrite <- (decimal_value_decimal Hn), <- (decimal_value_decimal Hm), E.
  reflexivity.
Qed.

(** Two texts that start with digits and go on with a character that is
    no digit agree part by part. *)
Lemma digits_then_letter s1 : forall s2 c1 c2 t1 t2,
  all_digits s1 = true -> all_digits s2 = true ->
  is_digit c1 = false -> is_digit c2 = false ->
  (s1 ++ String c1 t1)%string = (s2 ++ String c2 t2)%string ->
  s1 = s2 /\ c1 = c2 /\ t1 = t2.
Proof.
  induction s1 as [|a s1 IH]; intros s2 c1 c2 t1 t2 H1 H2 Hc1 Hc2 E.
  - destruct s2 as [|b s2]; simpl in E.
    + injection E as -> ->. auto.
    + injection E as -> _. simpl in H2. rewrite Hc1 in H2. discriminate.
  - destruct s2 as [|b s2]; simpl in E.
    + injection E as -> _. simpl in H1. rewrite Hc2 in H1. discriminate.
    + injection E as -> E. simpl in H1, H2.
      apply andb_true_iff in H1, H2.
      destruct (IH s2 c1 c2 t1 t2) as (-> & -> & ->); tauto.
Qed.

Lemma word_id_inj d k d' k' :
  word_id d k = word_id d' k' -> d = d' /\ k = k'.
Proof.
  unfold word_id. intros E. simpl in E. injection E as E.
  apply digits_then_letter in E; try reflexivity;
    try (apply decimal_digits; lia).
  destruct E as (Ed & _ & Ek).
  apply decimal_inj in Ed; [|lia|lia].
  apply decimal_inj in Ek; [|lia|lia].
  split; lia.
Qed.

Lemma pattern_id_inj d d' : pattern_id d = pattern_id d' -> d = d'.
Proof.
  unfold pattern_id. intros E. simpl in E. injection E as E.
  apply digits_then_letter in E; try reflexivity;
    try (apply decimal_digits; lia).
  destruct E as (Ed & _). apply decimal_inj in Ed; [|lia|lia]. lia.
Qed.

Lemma word_id_not_pattern_id d k d' : word_id d k <> pattern_id d'.
Proof.
  unfold word_id, pattern_id. intros E. simpl in E. injection E as E.
  apply digits_then_letter in E; try reflexivity;
    try (apply decimal_digits; lia).
  destruct E as (_ & Ec & _). discriminate.
Qed.

Lemma word_items_ids di ws : forall wi id,
  In id (map q_id (word_items di ws wi)) ->
  exists k, (wi <= k)%nat /\ id = word_id di k.
Proof.
  induction ws as [|w ws IH]; intros wi id H; simpl in H; [destruct H|].
  destruct H as [<-|H].
  - exists wi. auto.
  - destruct (IH _ _ H) as (k & Hk & ->). exists k. split; [lia | reflexivity].
Qed.

Lemma word_items_NoDup di ws : forall wi,
  NoDup (map q_id (word_items di ws wi)).
Proof.
  induction ws as [|w ws IH]; intros wi; simpl; constructor.
  - intros H. apply word_items_ids in H. destruct H as (k & Hk & E).
    apply word_id_inj in E. lia.
  - apply IH.
Qed.

Lemma catalog_from_ids plan : forall di id,
  In id (map q_id (catalog_from plan di)) ->
  exists d, (di <= d)%nat /\
            (id = pattern_id d \/ exists k, id = word_id d k).
Proof.
  induction plan as [|day plan IH]; intros di id H; simpl in H; [destruct H|].
  rewrite map_app in H. apply in_app_or in H. destruct H as [H|H].
  - apply word_items_ids in H. destruct H as (k & _ & ->).
    exists di. split; [lia|]. right. exists k. reflexivity.
  - simpl in H. destruct H as [<-|H].
    + exists di. split; [lia|]. left. reflexivity.
    + destruct (IH _ _ H) as (d & Hd & Hid). exists d. split; [lia | exact Hid].
Qed.

(** The ids the catalog synthesizes are pairwise different. *)
Lemma catalog_ids_NoDup plan : forall di,
  NoDup (map q_id (catalog_from plan di)).
Proof.
  induction plan as [|day plan IH]; intros di; simpl; [constructor|].
  rewrite map_app. simpl. apply NoDup_app.
  - apply word_items_NoDup.
  - constructor; [|apply IH].
    intros H. apply catalog_from_ids in H.
    destruct H as (d & Hd & [E|(k & E)]).
    + apply pattern_id_inj in E. lia.
    + symmetry in E. apply word_id_not_pattern_id in E. exact E.
  - intros id Hw [<-|Hrest].
    + apply word_items_ids in Hw. destruct Hw as (k & _ & E).
      symmetry in E. apply word_id_not_pattern_id in E. exact E.
    + apply word_items_ids in Hw. destruct Hw as (k & _ & ->).
      apply catalog_from_ids in Hrest.
      destruct Hrest as (d & Hd & [E|(k' & E)]).
      * apply word_id_not_pattern_id in E. exact E.
      * apply word_id_inj in E. lia.
Qed.

Lemma map_filter_NoDup (A B : Type) (g : A -> B) (f : A -> bool) (l : list A) :
  NoDup (map g l) -> NoDup (map g (filter f l)).
Proof.
  induction l as [|a l IH]; simpl; intros H; [constructor|].
  inversion H as [|? ? Hn Hd]; subst.
  destruct (f a); simpl; [|apply IH; exact Hd].
  constructor; [|apply IH; exact Hd].
  intros Hin. apply Hn. apply in_map_iff in Hin.
  destruct Hin as (x & E & Hx). apply filter_In in Hx.
  apply in_map_iff. exists x. tauto.
Qed.

Lemma NoDup_map_eq (A B : Type) (g : A -> B) (l : list A) :
  NoDup (map g l) ->
  forall x y, In x l -> In y l -> g x = g y -> x = y.
Proof.
  induction l as [|a l IH]; simpl; intros H x y Hx Hy E; [destruct Hx|].
  inversion H as [|? ? Hn Hd]; subst.
  destruct Hx as [->|Hx], Hy as [->|Hy].
  - reflexivity.
  - exfalso. apply Hn. rewrite E. apply in_map. exact Hy.
  - exfalso. apply Hn. rewrite <- E. apply in_map. exact Hx.
  - apply IH; assumption.
Qed.

(** X11: the ids synthesized for a catalog are pairwise different, so a
    quiz holds at most one item per requested id: the ids of the quiz
    items are pairwise different and are requested ids, an item of the
    quiz is determined by its id, and the quiz is never longer than the
    list of requested ids. *)
Theorem quiz_has_one_item_per_id :
  forall (itemIds : list string) (plan : list Day),
    NoDup (map q_id (catalog_items plan)) /\
    NoDup (map q_id (generateQuizData itemIds plan)) /\
    incl (map q_id (generateQuizData itemIds plan)) itemIds /\
    (forall q q', In q (generateQuizData itemIds plan) ->
                  In q' (generateQuizData itemIds plan) ->
                  q_id q = q_id q' -> q = q') /\
    (List.length (generateQuizData itemIds plan) <= List.length itemIds)%nat.
Proof.
  intros itemIds plan.
  pose proof (catalog_ids_NoDup plan 0) as Hcat.
  fold (catalog_items plan) in Hcat.
  assert (E : generateQuizData itemIds plan
              = filter (fun q => includes itemIds (q_id q))
                  (catalog_items plan)).
  { unfold generateQuizData. rewrite plan_forEach_filter. reflexivity. }
  assert (Hnd : NoDup (map q_id (generateQuizData itemIds plan))).
  { rewrite E. apply map_filter_NoDup. exact Hcat. }
  assert (Hincl : incl (map q_id (generateQuizData itemIds plan)) itemIds).
  { intros id H. rewrite E in H. apply in_map_iff in H.
    destruct H as (q & <- & Hq). apply filter_In in Hq.
    apply includes_In. tauto. }
  split; [exact Hcat|]. split; [exact Hnd|]. split; [exact Hincl|].
  split.
  - intros q q' Hq Hq' Eid.
    apply (NoDup_map_eq q_id _ Hnd); assumption.
  - rewrite <- (length_map q_id). apply NoDup_incl_length; assumption.
Qed.

(** X16: the parameter [max] only cuts the review set off: the set for a
    smaller [max] is the front part of the set for a larger one, in the
    same order. *)
Theorem review_set_truncation_is_prefix :
  forall (st : Storage) (now7 now1 : Z) (m n : nat) (ids : list string),
    (m <= n)%nat ->
    (getYesterdayReviewSet st now1 n = Ok ids ->
     getYesterdayReviewSet st now1 m = Ok (firstn m ids)) /\
    (getLast7DaysReviewSet st now7 now1 n = Ok ids ->
     getLast7DaysReviewSet st now7 now1 m = Ok (firstn m ids)).
Proof.
  intros st now7 now1 m n ids Hmn.
  unfold getYesterdayReviewSet, getLast7DaysReviewSet.
  destruct (read_log st) as [log| |]; simpl; split; intros H;
    try discriminate; injection H as <-;
    rewrite firstn_firstn, Nat.min_l by exact Hmn; reflexivity.
Qed.

Lemma review_set_truncation_is_prefix_witness :
  getLast7DaysReviewSet sample_storage sample_now sample_now 1
  = Ok (firstn 1 ["D1W1"; "D2P"]%string).
Proof.
  assert (H : getLast7DaysReviewSet sample_storage sample_now sample_now
                default_max = Ok ["D1W1"; "D2P"]%string)
    by (vm_compute; reflexivity).
  assert (Hle : (1 <= default_max)%nat) by (unfold default_max; lia).
  exact (proj2 (@review_set_truncation_is_prefix sample_storage sample_now
                  sample_now 1%nat default_max _ Hle) H).
Defined.
